(** * CASL policy engine: rule interpolation, policy extraction, ability building

    A shallow embedding of the authorization engine of the repository:

    - [interpolateConditions] and [createAppAbility]
      (shared/src/types/casl-types.ts),
    - [extractAppPolicy], [createDefaultUserPolicy], [interpolatePolicy] and a
      second copy of [interpolateConditions] (the shared policy utilities).

    JavaScript objects are modelled by the list of their own enumerable
    properties, in the order [Object.entries] enumerates them.  Numbers are
    the integers the engine handles (identifiers); strings are byte strings. *)

From Stdlib Require Import String Ascii List ZArith NArith Bool Lia.
From Stdlib Require Import DecimalString DecimalN.
From Stdlib Require Import Permutation.
Import ListNotations.

Local Open Scope string_scope.
Local Open Scope list_scope.

(* ================================================================== *)
(** ** JavaScript values and plain objects *)
(* ================================================================== *)

Module JS.

(** A reference names an object (or array) living in the store; the engine
    never looks inside nested objects, it only copies and compares them. *)
Definition ref := nat.

Inductive value : Type :=
| VUndefined
| VNull
| VBool (b : bool)
| VNum (n : Z)
| VStr (s : string)
| VRef (r : ref)
| VInherited (name : string).
(** [VInherited name] is the member every plain object inherits from
    [Object.prototype] under [name] ([toString], [constructor], ...). *)

(** Own enumerable properties, in enumeration order.  [props V] is used
    for records whose members all have type [V]; [object] is the general
    case. *)
Definition props (V : Type) := list (string * V).
Definition object := props value.

Fixpoint own {V} (k : string) (o : props V) : option V :=
  match o with
  | [] => None
  | (k', v) :: o' => if k' =? k then Some v else own k o'
  end.

(** Names found on [Object.prototype]. *)
Definition Object_prototype : list string :=
  [ "constructor"; "__defineGetter__"; "__defineSetter__"; "hasOwnProperty";
    "__lookupGetter__"; "__lookupSetter__"; "isPrototypeOf";
    "propertyIsEnumerable"; "toString"; "valueOf"; "__proto__";
    "toLocaleString" ].

Definition inherited (k : string) : bool :=
  existsb (String.eqb k) Object_prototype.

(** [o[k]] on a plain object. *)
Definition get (o : object) (k : string) : value :=
  match own k o with
  | Some v => v
  | None => if inherited k then VInherited k else VUndefined
  end.

(** [k in o]. *)
Definition has_property (o : object) (k : string) : bool :=
  match own k o with
  | Some _ => true
  | None => inherited k
  end.

(** [!!v]. *)
Definition truthy (v : value) : bool :=
  match v with
  | VUndefined | VNull => false
  | VBool b => b
  | VNum n => negb (n =? 0)%Z
  | VStr s => negb (s =? "")
  | VRef _ | VInherited _ => true
  end.

(** [a === b]: primitives by value, objects by identity. *)
Definition strict_equals (a b : value) : bool :=
  match a, b with
  | VUndefined, VUndefined => true
  | VNull, VNull => true
  | VBool x, VBool y => Bool.eqb x y
  | VNum x, VNum y => (x =? y)%Z
  | VStr x, VStr y => x =? y
  | VRef x, VRef y => Nat.eqb x y
  | VInherited x, VInherited y => x =? y
  | _, _ => false
  end.

(** *** String methods *)

Definition startsWith (s p : string) : bool := String.prefix p s.

Definition endsWith (s p : string) : bool :=
  let n := String.length s in
  let m := String.length p in
  (m <=? n)%nat && (substring (n - m) m s =? p).

(** Position denoted by a [slice] argument: negative arguments count from
    the end, and the result is clamped to the string. *)
Definition slice_index (len : nat) (i : Z) : nat :=
  if (i <? 0)%Z then Z.to_nat (Z.max 0 (Z.of_nat len + i))
  else Nat.min (Z.to_nat i) len.

Definition slice (s : string) (from to : Z) : string :=
  let len := String.length s in
  let b := slice_index len from in
  let e := slice_index len to in
  substring b (e - b) s.

(** *** Property order

    [Object.entries] lists the keys that are array indices first, in
    ascending numeric order, and then the other keys in creation order. *)

Definition string_of_N (n : N) : string :=
  NilZero.string_of_uint (N.to_uint n).

Definition array_index (k : string) : option N :=
  match NilZero.uint_of_string k with
  | Some u =>
      let n := N.of_uint u in
      if (string_of_N n =? k) && (n <? 4294967295)%N then Some n else None
  | None => None
  end.

Fixpoint insert_index {V} (n : N) (k : string) (v : V) (o : props V) : props V :=
  match o with
  | [] => [(k, v)]
  | (k', v') :: o' =>
      match array_index k' with
      | Some n' =>
          if (n <? n')%N then (k, v) :: o
          else (k', v') :: insert_index n k v o'
      | None => (k, v) :: o
      end
  end.

(** A property the object does not have yet is created. *)
Definition create {V} (k : string) (v : V) (o : props V) : props V :=
  match array_index k with
  | Some n => insert_index n k v o
  | None => o ++ [(k, v)]
  end.

(** An existing own property keeps its place and takes the new value. *)
Fixpoint replace {V} (k : string) (v : V) (o : props V) : props V :=
  match o with
  | [] => []
  | (k', v') :: o' =>
      if k' =? k then (k', v) :: o' else (k', v') :: replace k v o'
  end.

(** [{ ...o, k: v }] and, for an own or a fresh ordinary key, [o[k] = v]. *)
Definition define {V} (k : string) (v : V) (o : props V) : props V :=
  match own k o with
  | Some _ => replace k v o
  | None => create k v o
  end.

(** *** Completions *)

(** [TypeError] is raised by the runtime (a member read on [undefined]).
    [MalformedRuleError] is the error kind the specification names for a
    rule without [action] or [subject]. *)
Inductive exception : Type :=
| TypeError
| MalformedRuleError (field : string).

Inductive completion (A : Type) : Type :=
| Normal (a : A)
| Throw (e : exception).
Arguments Normal {A} a.
Arguments Throw {A} e.

End JS.

Import JS.

(* ================================================================== *)
(** ** Condition interpolation *)
(* ================================================================== *)

(** [typeof value === 'string' && value.startsWith('{{') && value.endsWith('}}')] *)
Definition is_template (v : value) : bool :=
  match v with
  | VStr s => startsWith s "{{" && endsWith s "}}"
  | _ => false
  end.

(** The value one entry of the copy ends up with:
    [context[value.slice(2, -2)]] for a template, the value itself otherwise. *)
Definition substitute (context : object) (v : value) : value :=
  match v with
  | VStr s =>
      if startsWith s "{{" && endsWith s "}}"
      then get context (slice s 2 (-2))
      else v
  | _ => v
  end.

(** One entry of the copy after the loop. *)
Definition interpolate_entry (context : object) (e : string * value)
  : string * value :=
  let '(key, v) := e in (key, substitute context v).

(** [interpolateConditions], on the contents of the conditions object.
    [None] is an absent [conditions] member, returned as it is; otherwise the
    result is a fresh copy whose entries keep their keys and order.  (Both
    copies of the function, in casl-types.ts and in the policy utilities, have
    this body; [Store.interpolateConditions] below follows it statement by
    statement.) *)
Definition interpolateConditions
    (conditions : option object) (context : object) : option object :=
  match conditions with
  | None => None
  | Some c => Some (map (interpolate_entry context) c)
  end.

(* ================================================================== *)
(** ** The same functions on a store of objects *)
(* ================================================================== *)

(** Rules and condition maps are objects that callers keep references to.
    This module follows the statements of [interpolateConditions] and
    [interpolatePolicy] one by one on a store, so that what they allocate and
    what they write is explicit. *)
Module Store.

(** The object with reference [r] is the [r]-th cell. *)
Definition heap := list object.

Definition M (A : Type) : Type := heap -> A * heap.

Definition ret {A} (a : A) : M A := fun h => (a, h).

Definition bind {A B} (m : M A) (k : A -> M B) : M B :=
  fun h => let (a, h') := m h in k a h'.

Notation "x <- m ;; k" := (bind m (fun x => k))
  (at level 61, m at next level, right associativity).
Notation "m ;;; k" := (bind m (fun _ => k))
  (at level 61, right associativity).

(** A new object: [{ ... }]. *)
Definition alloc (o : object) : M ref :=
  fun h => (List.length h, h ++ [o]).

Fixpoint characters (i : N) (s : string) : object :=
  match s with
  | EmptyString => []
  | String c s' =>
      (string_of_N i, VStr (String c EmptyString)) :: characters (N.succ i) s'
  end.

(** The own enumerable properties of a value, as [{ ...v }] and
    [Object.entries(v)] see them. *)
Definition properties (v : value) : M object :=
  fun h =>
    (match v with
     | VRef r => nth r h []
     | VStr s => characters 0 s
     | _ => []
     end, h).

Fixpoint update_cell (r : ref) (f : object -> object) (h : heap) : heap :=
  match h, r with
  | [], _ => []
  | o :: h', O => f o :: h'
  | o :: h', S r' => o :: update_cell r' f h'
  end.

(** [r[k] = v] *)
Definition assign (r : ref) (k : string) (v : value) : M unit :=
  fun h => (tt, update_cell r (define k v) h).

Fixpoint for_of {A} (l : list A) (body : A -> M unit) : M unit :=
  match l with
  | [] => ret tt
  | a :: l' => body a ;;; for_of l' body
  end.

Fixpoint map_M {A B} (f : A -> M B) (l : list A) : M (list B) :=
  match l with
  | [] => ret []
  | a :: l' => b <- f a ;; bs <- map_M f l' ;; ret (b :: bs)
  end.

Definition interpolateConditions (conditions : value) (context : object)
  : M value :=
  if negb (truthy conditions) then ret conditions
  else
    copied <- properties conditions ;;
    result <- alloc copied ;;
    entries <- properties (VRef result) ;;
    for_of entries (fun '(key, v) =>
      match v with
      | VStr s =>
          if startsWith s "{{" && endsWith s "}}"
          then assign result key (get context (slice s 2 (-2)))
          else ret tt
      | _ => ret tt
      end) ;;;
    ret (VRef result).

(** [policy.map(rule => ({ ...rule, conditions: interpolateConditions(...) }))];
    the array is given by its elements, the result likewise. *)
Definition interpolatePolicy (policy : list ref) (context : object)
  : M (list ref) :=
  map_M (fun rule =>
    members <- properties (VRef rule) ;;
    conditions <- interpolateConditions (get members "conditions") context ;;
    alloc (define "conditions" conditions members)) policy.

End Store.

(* ================================================================== *)
(** ** Building an ability (casl-types.ts) *)
(* ================================================================== *)

(** The rule shape of the application.  Rule lists are parsed from stored
    JSON, so at run time a member that the interface requires can be missing:
    [action] and [subject] are optional here, [None] being [undefined]. *)
Module AppRawRule.
Record t : Type := make {
  action : option string;
  subject : option string;
  conditions : option object;
  fields : option (list string);
  inverted : bool;
  reason : option string
}.
End AppRawRule.

(** [AbilityBuilder] is the rule collector of @casl/ability, whose code is
    not part of the repository.  In the specification [build] receives the
    rules as a list, each rule with its action, subject, conditions, fields
    and inversion flag; accordingly [can] and [cannot] add one such rule per
    call, in call order, [cannot] marking it as inverted, and [build] hands
    the list over.  The library's [build()] makes checks of its own on the
    collected rules and can refuse them (a grant whose [fields] list is
    empty, for one); these checks are in no file of the repository and are
    left out: [build] gives the ability of a rule list that the library
    accepts, and no property below is about which lists it accepts. *)
Module AbilityBuilder.

Record RawRule : Type := {
  action : option string;
  subject : option string;
  fields : option (list string);
  conditions : option object;
  inverted : bool
}.

Definition t := list RawRule.

Definition empty : t := [].

(** Modelled from the spec: [can(action, subject, fields, conditions)] adds
    a grant with these members. *)
Definition can (action subject : option string)
    (fields : option (list string)) (conditions : option object)
    (builder : t) : t :=
  builder ++ [ {| action := action; subject := subject; fields := fields;
                  conditions := conditions; inverted := false |} ].

(** Modelled from the spec: [cannot(action, subject, conditions)] adds a
    denial with these members; it is given no fields. *)
Definition cannot (action subject : option string)
    (conditions : option object) (builder : t) : t :=
  builder ++ [ {| action := action; subject := subject; fields := None;
                  conditions := conditions; inverted := true |} ].

(** Modelled from the spec: [build()] makes the ability out of the rules
    collected so far. *)
Definition build (builder : t) : list RawRule := builder.

End AbilityBuilder.

Definition AppAbility := list AbilityBuilder.RawRule.

(** The body of the [for (const rule of userRules)] loop. *)
Definition register (context : object) (builder : AbilityBuilder.t)
    (rule : AppRawRule.t) : AbilityBuilder.t :=
  let conditions :=
    match AppRawRule.conditions rule with
    | Some c => interpolateConditions (Some c) context
    | None => None
    end in
  if AppRawRule.inverted rule
  then AbilityBuilder.cannot (AppRawRule.action rule) (AppRawRule.subject rule)
         conditions builder
  else AbilityBuilder.can (AppRawRule.action rule) (AppRawRule.subject rule)
         (AppRawRule.fields rule) conditions builder.

(** [createAppAbility] contains no [throw] and no check of its own: the loop
    fills the builder and the result is that of the library's [build()],
    whose own refusals are left out (see [AbilityBuilder]). *)
Definition createAppAbility (userRules : list AppRawRule.t) (context : object)
  : completion AppAbility :=
  Normal (AbilityBuilder.build
            (fold_left (register context) userRules AbilityBuilder.empty)).

(** *** Asking the ability *)

(** The evaluator behind [ability.can] is the one of @casl/ability, whose
    code is not part of the repository; the definitions of this module follow
    the specification of the Ability Evaluator.  Left out are the query
    without an instance (the coarse check) and the wildcard markers, which the
    specification leaves optional and the rule type of the application
    ([AppAction], [AppSubject]) does not contain. *)
Module Ability.

(** Modelled from the spec: a rule's action (or subject) must equal the
    queried one; a rule that has none matches nothing. *)
Definition same (a : option string) (b : string) : bool :=
  match a with
  | Some x => x =? b
  | None => false
  end.

(** Modelled from the spec: every key of the conditions must strictly equal
    the corresponding member of the instance; absent conditions are
    satisfied. *)
Definition conditions_hold (c : option object) (instance : object) : bool :=
  match c with
  | None => true
  | Some entries =>
      forallb (fun '(key, expected) =>
                 strict_equals (get instance key) expected) entries
  end.

(** Modelled from the spec: when the query names a field, a rule that
    declares [fields] must include it. *)
Definition field_allowed (fs : option (list string)) (field : option string)
  : bool :=
  match field, fs with
  | Some f, Some names => existsb (String.eqb f) names
  | _, _ => true
  end.

(** Modelled from the spec: when a rule matches a query. *)
Definition matches (rule : AbilityBuilder.RawRule) (a s : string)
    (instance : object) (field : option string) : bool :=
  same (AbilityBuilder.action rule) a
  && same (AbilityBuilder.subject rule) s
  && conditions_hold (AbilityBuilder.conditions rule) instance
  && field_allowed (AbilityBuilder.fields rule) field.

(** Modelled from the spec: a matching rule replaces the running decision by
    its verdict, grant unless it is inverted. *)
Definition decide (a s : string) (instance : object) (field : option string)
    (decision : option bool) (rule : AbilityBuilder.RawRule) : option bool :=
  if matches rule a s instance field
  then Some (negb (AbilityBuilder.inverted rule))
  else decision.

(** Modelled from the spec: the rules are scanned in the order supplied; the
    answer is the last decision, deny if no rule matched. *)
Definition can (ability : AppAbility) (a s : string) (instance : object)
    (field : option string) : bool :=
  match fold_left (decide a s instance field) ability None with
  | Some verdict => verdict
  | None => false
  end.

End Ability.

(** What a caller of [createAppAbility] gets from [can]; [None] when no
    ability was built. *)
Definition answer (built : completion AppAbility) (a s : string)
    (instance : object) (field : option string) : option bool :=
  match built with
  | Normal ability => Some (Ability.can ability a s instance field)
  | Throw _ => None
  end.

(* ================================================================== *)
(** ** Policy extraction and the default policy *)
(* ================================================================== *)

Module PolicyRule.
Record t : Type := make {
  action : string;
  subject : string;
  conditions : option object
}.
End PolicyRule.

(** One entry of [AppPolicy]: [{ actions, permissions }]. *)
Module SubjectPolicy.
Record t : Type := make {
  actions : list string;
  permissions : list PolicyRule.t
}.
End SubjectPolicy.

Definition AppPolicy := props SubjectPolicy.t.

(** The value of a [__policy] member, as [extractAppPolicy] reads it. *)
Module Annotation.
Record t : Type := make {
  subjects : list string;
  actions : list string;
  conditions : option object
}.
End Annotation.

(** A value met while walking the contract.  (The induction principle that
    reaches the entries of a group is [Node_ind'], stated with the lemmas.) *)
#[local] Unset Elimination Schemes.
Inductive Node : Type :=
| Leaf                                    (* not an object, or [null] *)
| Route (policy : Annotation.t)           (* an object with a [__policy] member *)
| Group (entries : list (string * Node)). (* any other object *)
#[local] Set Elimination Schemes.

(** [if (!appPolicy[subject].actions.includes(action)) ... push(action)] *)
Definition add_action (action : string) (entry : SubjectPolicy.t)
  : SubjectPolicy.t :=
  if existsb (String.eqb action) (SubjectPolicy.actions entry)
  then entry
  else SubjectPolicy.make (SubjectPolicy.actions entry ++ [action])
                          (SubjectPolicy.permissions entry).

(** [appPolicy[subject].permissions.push(rule)] *)
Definition add_permission (rule : PolicyRule.t) (entry : SubjectPolicy.t)
  : SubjectPolicy.t :=
  SubjectPolicy.make (SubjectPolicy.actions entry)
                     (SubjectPolicy.permissions entry ++ [rule]).

(** In-place change of the entry stored under [k]. *)
Fixpoint modify {V} (k : string) (f : V -> V) (o : props V) : props V :=
  match o with
  | [] => []
  | (k', v) :: o' =>
      if k' =? k then (k', f v) :: o' else (k', v) :: modify k f o'
  end.

(** The body of [for (const subject of policy.subjects)].  A subject named
    like a member of [Object.prototype] makes [appPolicy[subject]] truthy
    without any entry being there, so that no entry is created and the first
    [appPolicy[subject].actions.includes] raises a [TypeError]. *)
Definition visit_subject (policy : Annotation.t) (appPolicy : AppPolicy)
    (subject : string) : completion AppPolicy :=
  if inherited subject then
    match Annotation.actions policy with
    | [] => Normal appPolicy
    | _ :: _ => Throw TypeError
    end
  else
    let p0 :=
      match own subject appPolicy with
      | Some _ => appPolicy
      | None => create subject (SubjectPolicy.make [] []) appPolicy
      end in
    let p1 :=
      fold_left (fun p action => modify subject (add_action action) p)
                (Annotation.actions policy) p0 in
    let p2 :=
      fold_left (fun p action =>
                   modify subject
                     (add_permission
                        (PolicyRule.make action subject
                                         (Annotation.conditions policy))) p)
                (Annotation.actions policy) p1 in
    Normal p2.

Fixpoint visit_subjects (policy : Annotation.t) (subjects : list string)
    (appPolicy : AppPolicy) : completion AppPolicy :=
  match subjects with
  | [] => Normal appPolicy
  | subject :: rest =>
      match visit_subject policy appPolicy subject with
      | Normal p => visit_subjects policy rest p
      | Throw e => Throw e
      end
  end.

(** The body of the loop of [traverse], for one value. *)
Fixpoint visit (value : Node) (appPolicy : AppPolicy) {struct value}
  : completion AppPolicy :=
  match value with
  | Leaf => Normal appPolicy
  | Route policy => visit_subjects policy (Annotation.subjects policy) appPolicy
  | Group entries =>
      (fix traverse (obj : list (string * Node)) (p : AppPolicy)
         : completion AppPolicy :=
         match obj with
         | [] => Normal p
         | (_, v) :: rest =>
             match visit v p with
             | Normal p' => traverse rest p'
             | Throw e => Throw e
             end
         end) entries appPolicy
  end.

(** [traverse(obj)]: [for (const [, value] of Object.entries(obj))]. *)
Fixpoint traverse (obj : list (string * Node)) (appPolicy : AppPolicy)
  : completion AppPolicy :=
  match obj with
  | [] => Normal appPolicy
  | (_, v) :: rest =>
      match visit v appPolicy with
      | Normal p => traverse rest p
      | Throw e => Throw e
      end
  end.

(** [extractAppPolicy(contract)]; the contract is given by its entries. *)
Definition extractAppPolicy (contract : list (string * Node))
  : completion AppPolicy :=
  traverse contract [].

(** [createDefaultUserPolicy]: two nested loops pushing onto [rules]. *)
Definition createDefaultUserPolicy (appPolicy : AppPolicy) : list PolicyRule.t :=
  fold_left
    (fun rules '(_, config) =>
       fold_left
         (fun rules permission =>
            rules ++ [ PolicyRule.make (PolicyRule.action permission)
                                       (PolicyRule.subject permission)
                                       (PolicyRule.conditions permission) ])
         (SubjectPolicy.permissions config) rules)
    appPolicy [].

(* ================================================================== *)
(** ** Notions used to state the properties *)
(* ================================================================== *)

(** The raw rule under which [createAppAbility] registers a user rule. *)
Definition registered (context : object) (rule : AppRawRule.t)
  : AbilityBuilder.RawRule :=
  {| AbilityBuilder.action := AppRawRule.action rule;
     AbilityBuilder.subject := AppRawRule.subject rule;
     AbilityBuilder.fields :=
       if AppRawRule.inverted rule then None else AppRawRule.fields rule;
     AbilityBuilder.conditions :=
       interpolateConditions (AppRawRule.conditions rule) context;
     AbilityBuilder.inverted := AppRawRule.inverted rule |}.

(** The policy annotations of a contract, in the order a depth-first walk
    meets them. *)
Fixpoint routes_of (value : Node) : list Annotation.t :=
  match value with
  | Leaf => []
  | Route policy => [policy]
  | Group entries =>
      (fix all (obj : list (string * Node)) : list Annotation.t :=
         match obj with
         | [] => []
         | (_, v) :: rest => routes_of v ++ all rest
         end) entries
  end.

Fixpoint routes (obj : list (string * Node)) : list Annotation.t :=
  match obj with
  | [] => []
  | (_, v) :: rest => routes_of v ++ routes rest
  end.

(** Visiting a sequence of annotations one after the other. *)
Fixpoint visit_routes (policies : list Annotation.t) (appPolicy : AppPolicy)
  : completion AppPolicy :=
  match policies with
  | [] => Normal appPolicy
  | policy :: rest =>
      match visit_subjects policy (Annotation.subjects policy) appPolicy with
      | Normal p => visit_routes rest p
      | Throw e => Throw e
      end
  end.

(** The rules one annotation declares: one per subject and action. *)
Definition declared_by (policy : Annotation.t) : list PolicyRule.t :=
  flat_map (fun subject =>
              map (fun action =>
                     PolicyRule.make action subject
                                     (Annotation.conditions policy))
                  (Annotation.actions policy))
           (Annotation.subjects policy).

(** All the rules a contract declares, in traversal order. *)
Definition declared (contract : list (string * Node)) : list PolicyRule.t :=
  flat_map declared_by (routes contract).

Definition about (subject : string) (rule : PolicyRule.t) : bool :=
  PolicyRule.subject rule =? subject.

(** What an entry of the schema holds when [D] lists the rules declared so
    far: exactly the rules of [D] about its subject, and their actions, each
    once. *)
Definition entry_of (subject : string) (D : list PolicyRule.t)
    (entry : SubjectPolicy.t) : Prop :=
  NoDup (SubjectPolicy.actions entry) /\
  SubjectPolicy.permissions entry = filter (about subject) D /\
  (forall action,
      In action (SubjectPolicy.actions entry) <->
      In action (map PolicyRule.action (SubjectPolicy.permissions entry))).

(** The schema [p] accounts for the rules [D] declared so far: its keys are
    distinct, every entry is the entry of its subject, and every subject of
    [D] has an entry. *)
Definition accounts (p : AppPolicy) (D : list PolicyRule.t) : Prop :=
  NoDup (map fst p) /\
  (forall subject entry,
      own subject p = Some entry -> entry_of subject D entry) /\
  (forall rule, In rule D -> own (PolicyRule.subject rule) p <> None).

(** What the loop of [Store.interpolateConditions] makes of the copy [o],
    going through the entries it enumerated. *)
Definition assign_templates (context : object) (entries o : object) : object :=
  fold_left
    (fun o '(key, v) =>
       match v with
       | VStr s =>
           if startsWith s "{{" && endsWith s "}}"
           then define key (get context (slice s 2 (-2))) o
           else o
       | _ => o
       end)
    entries o.

(** The object [rule'] of the store [h'] is the interpolated copy of the
    object [rule] of the store [h]: every member but [conditions] is the
    same; an absent (falsy) [conditions] is carried over, and a [conditions]
    object is replaced by a new object holding its interpolation. *)
Definition interpolated_copy (context : object) (h h' : Store.heap)
    (rule rule' : ref) : Prop :=
  let o := nth rule h [] in
  let o' := nth rule' h' [] in
  (forall k, k <> "conditions" -> own k o' = own k o) /\
  match get o "conditions" with
  | VRef c =>
      exists c',
        own "conditions" o' = Some (VRef c') /\
        List.length h <= c' < List.length h' /\
        (c < List.length h -> NoDup (map fst (nth c h [])) ->
         interpolateConditions (Some (nth c h [])) context
         = Some (nth c' h' []))
  | v => truthy v = false -> own "conditions" o' = Some v
  end.

(** The two policy-bearing nodes of the extraction example of the
    specification, and the schema it expects. *)
Definition node_A : Annotation.t :=
  Annotation.make ["Post"] ["read"] None.

Definition node_B : Annotation.t :=
  Annotation.make ["Post"] ["delete"] (Some [("authorId", VStr "{{userId}}")]).

Definition schema_A_B : AppPolicy :=
  [ ("Post",
     SubjectPolicy.make
       ["read"; "delete"]
       [ PolicyRule.make "read" "Post" None;
         PolicyRule.make "delete" "Post"
                         (Some [("authorId", VStr "{{userId}}")]) ]) ].

(** The rules of the forbid-overrides-grant example of the specification. *)
Definition grant_delete_post : AppRawRule.t :=
  AppRawRule.make (Some "delete") (Some "Post") None None false None.

Definition forbid_delete_post_of_9 : AppRawRule.t :=
  AppRawRule.make (Some "delete") (Some "Post")
                  (Some [("authorId", VNum 9)]) None true None.

(** A rule without [action]: [{subject: "Post"}]. *)
Definition rule_without_action : AppRawRule.t :=
  AppRawRule.make None (Some "Post") None None false None.

(** The wording of the specification for the name of a template: the text
    between the braces, trimmed.  (The code takes the text as it is.) *)
Module Spec.

Definition is_space (c : ascii) : bool :=
  match nat_of_ascii c with
  | 9 | 10 | 11 | 12 | 13 | 32 => true
  | _ => false
  end.

Fixpoint trim_left (s : string) : string :=
  match s with
  | EmptyString => EmptyString
  | String c s' => if is_space c then trim_left s' else s
  end.

Fixpoint trim_right (s : string) : string :=
  match s with
  | EmptyString => EmptyString
  | String c s' =>
      match trim_right s' with
      | EmptyString => if is_space c then EmptyString else String c EmptyString
      | t => String c t
      end
  end.

Definition trim (s : string) : string := trim_right (trim_left s).

Definition template_name (s : string) : string := trim (slice s 2 (-2)).

End Spec.

(* ================================================================== *)
(** ** Contract helpers: [withPolicy] *)
(* ================================================================== *)

(** [a || b] on an optional string: an absent or empty string is falsy. *)
Definition or_else (a : option string) (b : string) : string :=
  match a with
  | Some s => if s =? "" then b else s
  | None => b
  end.

(** [names.join(sep)] *)
Fixpoint join (sep : string) (names : list string) : string :=
  match names with
  | [] => ""
  | [name] => name
  | name :: rest => (name ++ sep ++ join sep rest)%string
  end.

Module PolicyConfig.
Record t : Type := make {
  actions : string;
  subjects : string;
  conditions : option object;
  fields : option (list string);
  inverted : bool;
  reason : option string;
  description : option string
}.
End PolicyConfig.

(** A route of the contract; [rest] holds the members [withPolicy] only
    copies ([body], [pathParams], [query], [responses]). *)
Module ContractRoute.
Record t : Type := make {
  method : string;
  path : string;
  summary : option string;
  description : option string;
  rest : object
}.
End ContractRoute.

(** A route with its policy: [policy] is the [__policy] member. *)
Module PolicyRoute.
Record t : Type := make {
  method : string;
  path : string;
  summary : string;
  description : string;
  rest : object;
  policy : AppRawRule.t
}.
End PolicyRoute.

(** [config.inverted ? 'Forbid' : 'Allow'] *)
Definition verb (config : PolicyConfig.t) : string :=
  if PolicyConfig.inverted config then "Forbid" else "Allow".

(** The [policyDescription] that [withPolicy] builds. *)
Definition policyDescription (config : PolicyConfig.t) : string :=
  let action := PolicyConfig.actions config in
  let subject := PolicyConfig.subjects config in
  let start :=
    or_else (PolicyConfig.description config)
            (verb config ++ " " ++ action ++ " on " ++ subject)%string in
  if negb (PolicyConfig.inverted config) then
    let required :=
      (start ++ ". Requires '" ++ action ++ "' permission on '" ++ subject
             ++ "' subject")%string in
    let with_fields :=
      match PolicyConfig.fields config with
      | Some (f :: fs) =>
          (required ++ " (fields: " ++ join ", " (f :: fs) ++ ")")%string
      | _ => required
      end in
    match PolicyConfig.conditions config with
    | Some _ => (with_fields ++ " with conditions")%string
    | None => with_fields
    end
  else
    let forbidden :=
      (start ++ ". Explicitly forbids '" ++ action ++ "' on '" ++ subject
             ++ "'")%string in
    match PolicyConfig.reason config with
    | Some r =>
        if r =? "" then forbidden
        else (forbidden ++ ". Reason: " ++ r)%string
    | None => forbidden
    end.

(** [withPolicy(config)(route)] *)
Definition withPolicy (config : PolicyConfig.t) (route : ContractRoute.t)
  : PolicyRoute.t :=
  {| PolicyRoute.method := ContractRoute.method route;
     PolicyRoute.path := ContractRoute.path route;
     PolicyRoute.rest := ContractRoute.rest route;
     PolicyRoute.description :=
       or_else (ContractRoute.description route) (policyDescription config);
     PolicyRoute.summary :=
       or_else (ContractRoute.summary route)
         (or_else (PolicyConfig.description config)
            (verb config ++ " " ++ PolicyConfig.actions config ++ " "
                  ++ PolicyConfig.subjects config)%string);
     PolicyRoute.policy :=
       {| AppRawRule.action := Some (PolicyConfig.actions config);
          AppRawRule.subject := Some (PolicyConfig.subjects config);
          AppRawRule.conditions := PolicyConfig.conditions config;
          AppRawRule.fields := PolicyConfig.fields config;
          AppRawRule.inverted := PolicyConfig.inverted config;
          AppRawRule.reason :=
            match PolicyConfig.reason config with
            | Some r => if r =? "" then None else Some r
            | None => None
            end |} |}.

(* ================================================================== *)
(** ** Generating the application rules (shared/src/index.ts) *)
(* ================================================================== *)

(** A value met while walking the contract whose routes carry a rule as
    [__policy]. *)
#[local] Unset Elimination Schemes.
Inductive RouteTree : Type :=
| Plain                                        (* not an object, or [null] *)
| Guarded (policy : AppRawRule.t)              (* an object with [__policy] *)
| Router (entries : list (string * RouteTree)). (* any other object *)
#[local] Set Elimination Schemes.

(** The rule [extractAbilityRules] pushes for a policy: its action, subject
    and conditions, nothing else. *)
Definition pushed (policy : AppRawRule.t) : AppRawRule.t :=
  AppRawRule.make (AppRawRule.action policy) (AppRawRule.subject policy)
                  (AppRawRule.conditions policy) None false None.

(** The body of the loop of [traverse] in [extractAbilityRules]. *)
Fixpoint collect (value : RouteTree) (rules : list AppRawRule.t)
    {struct value} : list AppRawRule.t :=
  match value with
  | Plain => rules
  | Guarded policy => rules ++ [pushed policy]
  | Router entries =>
      (fix traverse (obj : list (string * RouteTree))
           (rules : list AppRawRule.t) : list AppRawRule.t :=
         match obj with
         | [] => rules
         | (_, v) :: rest => traverse rest (collect v rules)
         end) entries rules
  end.

Fixpoint collect_all (obj : list (string * RouteTree))
    (rules : list AppRawRule.t) : list AppRawRule.t :=
  match obj with
  | [] => rules
  | (_, v) :: rest => collect_all rest (collect v rules)
  end.

(** [extractAbilityRules(contract)]; the contract is given by its entries. *)
Definition extractAbilityRules (contract : list (string * RouteTree))
  : list AppRawRule.t :=
  collect_all contract [].

(** [a === b] on optional names. *)
Definition same_name (a b : option string) : bool :=
  match a, b with
  | Some x, Some y => x =? y
  | None, None => true
  | _, _ => false
  end.

(** [[...new Set(names)]]: the distinct names, in order of first
    appearance. *)
Definition unique (names : list (option string)) : list (option string) :=
  fold_left
    (fun set name => if existsb (same_name name) set then set else set ++ [name])
    names [].

Module RulesJSON.
Record t : Type := make {
  subjects : list (option string);
  actions : list (option string);
  rules : list AppRawRule.t
}.
End RulesJSON.

(** The value [generateAppRulesJSON] writes, for the contract it is run
    on. *)
Definition generateAppRulesJSON (appContract : list (string * RouteTree))
  : RulesJSON.t :=
  let allRules := extractAbilityRules appContract in
  {| RulesJSON.subjects := unique (map AppRawRule.subject allRules);
     RulesJSON.actions := unique (map AppRawRule.action allRules);
     RulesJSON.rules := allRules |}.

(* ================================================================== *)
(** ** The policy editor of the first front end (App.tsx) *)
(* ================================================================== *)

Module Post.
Record t : Type := make {
  id : Z;
  title : string;
  content : string;
  authorId : Z
}.
End Post.

Module PolicyApp.

(** [createAbility(policy, userId)]: the rules handed to
    [createMongoAbility]. *)
Definition createAbility (policy : list PolicyRule.t) (userId : Z)
  : list PolicyRule.t :=
  map (fun rule =>
         let conditions :=
           interpolateConditions (PolicyRule.conditions rule)
                                 [("userId", VNum userId)] in
         PolicyRule.make (PolicyRule.action rule) (PolicyRule.subject rule)
                         conditions)
      policy.

(** [rule.action === "delete" && rule.subject === "Post"] *)
Definition deletes_posts (rule : PolicyRule.t) : bool :=
  (PolicyRule.action rule =? "delete") && (PolicyRule.subject rule =? "Post").

(** [canDeletePost(ability, post, userId)].  The ability is given by what
    the function asks of it: [can] is the answer of
    [ability.can("delete", "Post")] and [rules] is [ability.rules]. *)
Definition canDeletePost (can : bool) (rules : list PolicyRule.t)
    (post : Post.t) (userId : Z) : bool :=
  if negb can then false
  else
    match find deletes_posts rules with
    | Some deleteRule =>
        match PolicyRule.conditions deleteRule with
        | Some conditions =>
            if negb (strict_equals (get conditions "authorId") VUndefined)
            then (Post.authorId post =? userId)%Z
            else true
        | None => true
        end
    | None => true
    end.

(** [rule.subject === subject && rule.action === action] *)
Definition concerns (subject action : string) (rule : PolicyRule.t) : bool :=
  (PolicyRule.subject rule =? subject) && (PolicyRule.action rule =? action).

(** [togglePermission(subject, action)] for the current [userPolicy] and
    [appPolicy]: the policy passed to [updateUserPolicy], [None] when it is
    not called. *)
Definition togglePermission (userPolicy : list PolicyRule.t)
    (appPolicy : AppPolicy) (subject action : string)
  : completion (option (list PolicyRule.t)) :=
  if existsb (concerns subject action) userPolicy then
    Normal (Some (filter (fun rule => negb (concerns subject action rule))
                         userPolicy))
  else
    match own subject appPolicy with
    | Some config =>
        match find (fun p => PolicyRule.action p =? action)
                   (SubjectPolicy.permissions config) with
        | Some appPermission => Normal (Some (userPolicy ++ [appPermission]))
        | None => Normal None
        end
    | None => if inherited subject then Throw TypeError else Normal None
    end.

End PolicyApp.

(* ================================================================== *)
(** ** The policy editor of the second front end (App.tsx) *)
(* ================================================================== *)

(** One entry of the schema the editor shows; its permissions are rules as
    the server sends them. *)
Module SchemaEntry.
Record t : Type := make {
  actions : list string;
  permissions : list AppRawRule.t
}.
End SchemaEntry.

Module RulesApp.

(** [member === name], the member possibly missing. *)
Definition named (name : string) (member : option string) : bool :=
  match member with
  | Some x => x =? name
  | None => false
  end.

(** The [cleanRules] that [updateUserPolicy] sends. *)
Definition cleanRules (newRules : list AppRawRule.t) : list AppRawRule.t :=
  map (fun rule =>
         AppRawRule.make (AppRawRule.action rule) (AppRawRule.subject rule)
                         (AppRawRule.conditions rule) None false None)
      newRules.

(** [togglePermission(subject, action)] for the current [userRules] and
    [appSchema], [hasPermission] being the answer of
    [ability.can(action, subject)]: the policy [updateUserPolicy] sends to the
    server, [None] when it is not called. *)
Definition togglePermission (hasPermission : bool)
    (userRules : list AppRawRule.t) (appSchema : props SchemaEntry.t)
    (subject action : string) : completion (option (list AppRawRule.t)) :=
  if hasPermission then
    Normal (Some (cleanRules
      (filter (fun rule =>
                 negb (named subject (AppRawRule.subject rule)
                       && named action (AppRawRule.action rule)))
              userRules)))
  else
    match own subject appSchema with
    | Some subjectConfig =>
        match find (fun p => named action (AppRawRule.action p)
                             && named subject (AppRawRule.subject p))
                   (SchemaEntry.permissions subjectConfig) with
        | Some permission =>
            Normal (Some (cleanRules (userRules ++ [permission])))
        | None => Normal None
        end
    | None => if inherited subject then Throw TypeError else Normal None
    end.

End RulesApp.

(** The policies of a contract, in the order a depth-first walk meets
    them. *)
Fixpoint policies_of (value : RouteTree) : list AppRawRule.t :=
  match value with
  | Plain => []
  | Guarded policy => [policy]
  | Router entries =>
      (fix all (obj : list (string * RouteTree)) : list AppRawRule.t :=
         match obj with
         | [] => []
         | (_, v) :: rest => policies_of v ++ all rest
         end) entries
  end.

Fixpoint policies (obj : list (string * RouteTree)) : list AppRawRule.t :=
  match obj with
  | [] => []
  | (_, v) :: rest => policies_of v ++ policies rest
  end.

(** The distinct names of a list, in order of first appearance. *)
Definition first_appearances (names : list string) : list string :=
  fold_left
    (fun seen name =>
       if existsb (String.eqb name) seen then seen else seen ++ [name])
    names [].

(** Every entry of the schema lists the actions of its permissions in the
    order they first appear. *)
Definition actions_in_order (p : AppPolicy) : Prop :=
  forall subject entry,
    own subject p = Some entry ->
    SubjectPolicy.actions entry
    = first_appearances
        (map PolicyRule.action (SubjectPolicy.permissions entry)).

(* ================================================================== *)
(** * Properties *)
(* ================================================================== *)

(** ** Strings and templates *)

Section StringFacts.

Local Open Scope string_scope.

Lemma strlen_app (a b : string) :
  String.length (a ++ b) = String.length a + String.length b.
Proof.
  induction a as [|c a IH]; simpl; [reflexivity | now rewrite IH].
Qed.

Lemma substring_skip (a b : string) (m : nat) :
  substring (String.length a) m (a ++ b) = substring 0 m b.
Proof.
  induction a as [|c a IH]; simpl; [reflexivity | exact IH].
Qed.

Lemma substring_take (a b : string) :
  substring 0 (String.length a) (a ++ b) = a.
Proof.
  induction a as [|c a IH]; simpl.
  - now destruct b.
  - now rewrite IH.
Qed.

Lemma substring_whole (a : string) :
  substring 0 (String.length a) a = a.
Proof.
  induction a as [|c a IH]; simpl; [reflexivity | now rewrite IH].
Qed.

(** A string splits at any position inside it. *)
Lemma substring_split (s : string) (n : nat) :
  n <= String.length s ->
  s = substring 0 n s ++ substring n (String.length s - n) s.
Proof.
  revert n; induction s as [|c s IH]; intros n Hn; simpl in *.
  - destruct n; [reflexivity | lia].
  - destruct n as [|n]; simpl.
    + now rewrite substring_whole.
    + f_equal. apply IH. lia.
Qed.

Lemma startsWith_app (p s : string) : startsWith (p ++ s) p = true.
Proof.
  unfold startsWith. apply prefix_correct. apply substring_take.
Qed.

Lemma startsWith_inv (s p : string) :
  startsWith s p = true -> exists t, s = p ++ t.
Proof.
  unfold startsWith. intros H. apply prefix_correct in H.
  assert (Hle : String.length p <= String.length s).
  { destruct (Nat.le_gt_cases (String.length p) (String.length s)) as [L|G];
      [exact L|].
    exfalso. clear -H G. revert s H G.
    induction p as [|c p IH]; intros s H G; simpl in *; [lia|].
    destruct s as [|d s]; simpl in *; [discriminate|].
    injection H as _ H. apply (IH s H). lia. }
  exists (substring (String.length p)
                    (String.length s - String.length p) s).
  rewrite <- H at 1. apply substring_split. exact Hle.
Qed.

Lemma endsWith_app (s p : string) : endsWith (s ++ p) p = true.
Proof.
  unfold endsWith. rewrite strlen_app.
  apply andb_true_intro; split.
  - apply Nat.leb_le. lia.
  - replace (String.length s + String.length p - String.length p)
      with (String.length s) by lia.
    rewrite substring_skip, substring_whole. apply String.eqb_refl.
Qed.

Lemma endsWith_inv (s p : string) :
  endsWith s p = true -> exists t, s = t ++ p.
Proof.
  unfold endsWith. intros H. apply andb_prop in H as [Hle Heq].
  apply Nat.leb_le in Hle. apply String.eqb_eq in Heq.
  exists (substring 0 (String.length s - String.length p) s).
  pose proof (substring_split s (String.length s - String.length p)) as H.
  replace (String.length s - (String.length s - String.length p))
    with (String.length p) in H by lia.
  rewrite Heq in H. apply H. lia.
Qed.

Lemma slice_inner (name : string) :
  slice ("{{" ++ name ++ "}}") 2 (-2) = name.
Proof.
  unfold slice, slice_index.
  replace (2 <? 0)%Z with false by reflexivity.
  replace (-2 <? 0)%Z with true by reflexivity.
  rewrite !strlen_app. cbn [String.length].
  replace (Nat.min (Z.to_nat 2) (2 + (String.length name + 2))) with 2 by lia.
  replace (Z.to_nat
             (Z.max 0 (Z.of_nat (2 + (String.length name + 2)) + -2)))
    with (2 + String.length name) by lia.
  replace (2 + String.length name - 2) with (String.length name) by lia.
  change 2 with (String.length "{{") at 1.
  rewrite substring_skip. apply substring_take.
Qed.

(** Values of the form [{{<name>}}], and only they, are templates. *)
Lemma is_template_wrap (name : string) :
  is_template (VStr ("{{" ++ name ++ "}}")) = true.
Proof.
  unfold is_template. rewrite startsWith_app. simpl andb.
  change ("{{" ++ name ++ "}}") with (String "{" (String "{" (name ++ "}}"))).
  change (String "{" (String "{" (name ++ "}}")))
    with (("{{" ++ name) ++ "}}").
  apply endsWith_app.
Qed.

Lemma is_template_inv (v : value) :
  is_template v = true -> exists name, v = VStr ("{{" ++ name ++ "}}").
Proof.
  destruct v as [| |b|n|s|r|i]; simpl; try discriminate.
  intros H. apply andb_prop in H as [Hs He].
  apply startsWith_inv in Hs as [t ->].
  apply endsWith_inv in He as [u Hu].
  (* "{{" ++ t = u ++ "}}": the two markers cannot overlap *)
  destruct u as [|c1 [|c2 u]]; simpl in Hu.
  - discriminate Hu.
  - injection Hu as _ Hu. discriminate Hu.
  - injection Hu as H1 H2 Ht. subst c1 c2 t. now exists u.
Qed.

(** Reading the only member of a one-member object. *)
Lemma get_single (k : string) (v : value) (name : string) :
  get [(k, v)] name
  = if k =? name then v
    else if inherited name then VInherited name else VUndefined.
Proof.
  unfold get. cbn [own]. now destruct (k =? name).
Qed.

Lemma substitute_template (context : object) (name : string) :
  substitute context (VStr ("{{" ++ name ++ "}}")) = get context name.
Proof.
  pose proof (is_template_wrap name) as H. unfold is_template in H.
  unfold substitute. rewrite H. now rewrite slice_inner.
Qed.

Lemma substitute_other (context : object) (v : value) :
  is_template v = false -> substitute context v = v.
Proof.
  destruct v; simpl; try reflexivity. now intros ->.
Qed.

End StringFacts.

(** ** Interpolation of a conditions object *)

Section Interpolation.

Variable context : object.

Local Abbreviation entry := (interpolate_entry context).

Lemma interpolateConditions_some (c : object) :
  interpolateConditions (Some c) context = Some (map entry c).
Proof. reflexivity. Qed.

Lemma interpolated_keys (c : object) : map fst (map entry c) = map fst c.
Proof.
  rewrite map_map. apply map_ext. now intros [key v].
Qed.

Lemma interpolated_nth (c : object) (i : nat) (key : string) (v : value) :
  nth_error c i = Some (key, v) ->
  nth_error (map entry c) i = Some (key, substitute context v).
Proof.
  intros H. rewrite nth_error_map, H. reflexivity.
Qed.

(** Interpolating again changes nothing as soon as no substituted value is
    itself a template. *)
Lemma interpolated_twice (c : object) :
  (forall key name,
      In (key, VStr ("{{" ++ name ++ "}}")%string) c ->
      is_template (get context name) = false) ->
  map entry (map entry c) = map entry c.
Proof.
  intros H. rewrite map_map. apply map_ext_in.
  intros [key v] Hin. unfold entry. f_equal.
  destruct (is_template v) eqn:T.
  - apply is_template_inv in T as [name ->].
    rewrite substitute_template.
    apply substitute_other. now apply (H key).
  - rewrite (substitute_other _ v T). now apply substitute_other.
Qed.

End Interpolation.

(** C3 (amended).  [interpolateConditions] returns a copy of the conditions
    with the same keys in the same order, in which every top-level value of
    the form [{{<name>}}] is replaced by [context[name]], the name being the
    text between the braces exactly as written (it is not trimmed), and every
    other value is left as it is; [{authorId: "{{userId}}"}] with the
    context [{userId: 7}] gives [{authorId: 7}].  By [is_template_inv] the
    two cases cover every value. *)
Theorem interpolateConditions_replaces_templates :
  forall (c context : object),
  exists c',
    interpolateConditions (Some c) context = Some c' /\
    map fst c' = map fst c /\
    (forall i key name,
        nth_error c i = Some (key, VStr ("{{" ++ name ++ "}}")%string) ->
        nth_error c' i = Some (key, get context name)) /\
    (forall i key v,
        nth_error c i = Some (key, v) -> is_template v = false ->
        nth_error c' i = Some (key, v)) /\
    interpolateConditions (Some [("authorId", VStr "{{userId}}")])
                          [("userId", VNum 7)]
    = Some [("authorId", VNum 7)].
Proof.
  intros c context. eexists. split; [apply interpolateConditions_some|].
  split; [apply interpolated_keys|].
  split; [|split; [|reflexivity]].
  - intros i key name H.
    rewrite (interpolated_nth context c i key _ H).
    now rewrite substitute_template.
  - intros i key v H T.
    rewrite (interpolated_nth context c i key _ H).
    now rewrite substitute_other.
Qed.

(** C3 as written fails: with the name taken as the trimmed inner text, the
    template ["{{ userId }}"] would resolve to [context["userId"]]; the code
    looks up [" userId "] and yields [undefined]. *)
Lemma interpolateConditions_trimmed_name_fails :
  ~ (forall (c context : object) i key s,
        nth_error c i = Some (key, VStr s) ->
        is_template (VStr s) = true ->
        exists c',
          interpolateConditions (Some c) context = Some c' /\
          nth_error c' i = Some (key, get context (Spec.template_name s))).
Proof.
  intros claim.
  destruct (claim [("authorId", VStr "{{ userId }}")] [("userId", VNum 7)]
                  0 "authorId" "{{ userId }}"%string eq_refl eq_refl)
    as (c' & Hc & Hnth).
  vm_compute in Hc. injection Hc as <-.
  vm_compute in Hnth. discriminate Hnth.
Qed.

(** C8.  When no value substituted from the context is itself a template,
    interpolating the result again gives the same conditions. *)
Theorem interpolateConditions_idempotent :
  forall (conditions : option object) (context : object),
    (forall c key name,
        conditions = Some c ->
        In (key, VStr ("{{" ++ name ++ "}}")%string) c ->
        is_template (get context name) = false) ->
    interpolateConditions (interpolateConditions conditions context) context
    = interpolateConditions conditions context.
Proof.
  intros [c|] context H; [|reflexivity].
  simpl. f_equal. apply interpolated_twice.
  intros key name Hin. now apply (H c key name).
Qed.

Lemma interpolateConditions_idempotent_witness :
  let conditions :=
    Some [("authorId", VStr "{{userId}}"); ("status", VStr "draft")] in
  let context := [("userId", VNum 7)] in
  interpolateConditions conditions context
  = Some [("authorId", VNum 7); ("status", VStr "draft")] /\
  interpolateConditions (interpolateConditions conditions context) context
  = interpolateConditions conditions context.
Proof.
  split; [reflexivity|].
  apply interpolateConditions_idempotent.
  intros c key name _ _. rewrite get_single.
  destruct ("userId" =? name)%string; [reflexivity|].
  destruct (inherited name); reflexivity.
Defined.

(** Without that condition a second pass can resolve one more level. *)
Remark interpolateConditions_chained_templates :
  let c := Some [("authorId", VStr "{{owner}}")] in
  let context := [("owner", VStr "{{userId}}"); ("userId", VNum 7)] in
  interpolateConditions c context = Some [("authorId", VStr "{{userId}}")] /\
  interpolateConditions (interpolateConditions c context) context
  = Some [("authorId", VNum 7)].
Proof. split; reflexivity. Qed.

(** ** Building and asking an ability *)

Section Building.

Variable context : object.

Lemma register_registered (builder : AbilityBuilder.t) (rule : AppRawRule.t) :
  register context builder rule = builder ++ [registered context rule].
Proof.
  unfold register, registered, AbilityBuilder.can, AbilityBuilder.cannot.
  destruct rule as [a s c f [|] r]; simpl; destruct c; reflexivity.
Qed.

Lemma fold_register (userRules : list AppRawRule.t) (builder : AbilityBuilder.t) :
  fold_left (register context) userRules builder
  = builder ++ map (registered context) userRules.
Proof.
  revert builder. induction userRules as [|rule rest IH]; intros builder; simpl.
  - now rewrite app_nil_r.
  - rewrite IH, register_registered, <- app_assoc. reflexivity.
Qed.

Lemma createAppAbility_registered (userRules : list AppRawRule.t) :
  createAppAbility userRules context
  = Normal (map (registered context) userRules).
Proof.
  unfold createAppAbility, AbilityBuilder.build, AbilityBuilder.empty.
  now rewrite fold_register.
Qed.

End Building.

Section Asking.

Import Ability.

Variables (a s : string) (instance : object) (field : option string).

Lemma fold_decide_unmatched (ability : AppAbility) (d : option bool) :
  (forall rule, In rule ability -> matches rule a s instance field = false) ->
  fold_left (decide a s instance field) ability d = d.
Proof.
  revert d. induction ability as [|rule rest IH]; intros d H; simpl.
  - reflexivity.
  - unfold decide at 2. rewrite (H rule (or_introl eq_refl)).
    apply IH. intros r Hr. apply H. now right.
Qed.

(** The last rule that matches the query decides. *)
Lemma can_last_match (before after : AppAbility)
      (rule : AbilityBuilder.RawRule) :
  matches rule a s instance field = true ->
  (forall later, In later after -> matches later a s instance field = false) ->
  can (before ++ rule :: after) a s instance field
  = negb (AbilityBuilder.inverted rule).
Proof.
  intros Hm Hafter. unfold can.
  rewrite fold_left_app. simpl.
  unfold decide at 2. rewrite Hm.
  now rewrite fold_decide_unmatched.
Qed.

Lemma can_no_match (ability : AppAbility) :
  (forall rule, In rule ability -> matches rule a s instance field = false) ->
  can ability a s instance field = false.
Proof.
  intros H. unfold can. now rewrite fold_decide_unmatched.
Qed.

Lemma strict_equals_undefined (v : value) :
  strict_equals v VUndefined = true -> v = VUndefined.
Proof. destruct v; simpl; congruence. Qed.

Lemma conditions_fail (c : object) (key : string) (expected : value) :
  In (key, expected) c ->
  strict_equals (get instance key) expected = false ->
  conditions_hold (Some c) instance = false.
Proof.
  intros Hin Hne. simpl.
  destruct (forallb _ c) eqn:F; [|reflexivity].
  rewrite forallb_forall in F. specialize (F _ Hin). simpl in F. congruence.
Qed.

End Asking.

(** C1 (amended).  For the rule list [[grant delete Post; forbid delete Post
    when authorId is 9]] the ability denies deleting every instance whose
    [authorId] is 9 and allows it for every instance whose [authorId] is 7.
    In general the last rule that matches the query decides: a matching
    forbid rule overrides every grant declared before it, and a matching
    grant declared after a forbid rule grants again. *)
Theorem last_matching_rule_decides :
  (forall context instance field,
      get instance "authorId" = VNum 9 ->
      answer (createAppAbility [grant_delete_post; forbid_delete_post_of_9]
                               context)
             "delete" "Post" instance field = Some false) /\
  (forall context instance field,
      get instance "authorId" = VNum 7 ->
      answer (createAppAbility [grant_delete_post; forbid_delete_post_of_9]
                               context)
             "delete" "Post" instance field = Some true) /\
  (forall context before rule after a s instance field,
      Ability.matches (registered context rule) a s instance field = true ->
      (forall later, In later after ->
         Ability.matches (registered context later) a s instance field
         = false) ->
      answer (createAppAbility (before ++ rule :: after) context)
             a s instance field
      = Some (negb (AppRawRule.inverted rule))).
Proof.
  split; [|split].
  - intros context instance field H.
    rewrite createAppAbility_registered. simpl. f_equal.
    unfold Ability.can, Ability.decide, Ability.matches. simpl.
    rewrite H. destruct field; reflexivity.
  - intros context instance field H.
    rewrite createAppAbility_registered. simpl. f_equal.
    unfold Ability.can, Ability.decide, Ability.matches. simpl.
    rewrite H. destruct field; reflexivity.
  - intros context before rule after a s instance field Hm Hafter.
    rewrite createAppAbility_registered. simpl. f_equal.
    rewrite map_app. simpl.
    rewrite (can_last_match a s instance field _ _ _ Hm); [reflexivity|].
    intros later Hin. apply in_map_iff in Hin as (r & <- & Hr).
    now apply Hafter.
Qed.

Lemma last_matching_rule_decides_witness :
  let context := [("userId", VNum 1)] in
  answer (createAppAbility [grant_delete_post; forbid_delete_post_of_9] context)
         "delete" "Post" [("id", VNum 2); ("authorId", VNum 9)] None
  = Some false /\
  answer (createAppAbility [grant_delete_post; forbid_delete_post_of_9] context)
         "delete" "Post" [("id", VNum 1); ("authorId", VNum 7)] None
  = Some true /\
  answer (createAppAbility
            ([grant_delete_post] ++ forbid_delete_post_of_9 :: []) context)
         "delete" "Post" [("authorId", VNum 9)] None
  = Some (negb (AppRawRule.inverted forbid_delete_post_of_9)).
Proof.
  split; [|split].
  - apply (proj1 last_matching_rule_decides). reflexivity.
  - apply (proj1 (proj2 last_matching_rule_decides)). reflexivity.
  - apply (proj2 (proj2 last_matching_rule_decides)).
    + reflexivity.
    + intros later [].
Defined.

(** C1 as written fails: the forbid rule does not win regardless of the
    declaration order.  Declared before the grant, it is overridden by it. *)
Lemma forbid_declared_first_is_overridden :
  ~ (forall first second context instance,
        (first, second) = (grant_delete_post, forbid_delete_post_of_9) \/
        (first, second) = (forbid_delete_post_of_9, grant_delete_post) ->
        get instance "authorId" = VNum 9 ->
        answer (createAppAbility [first; second] context)
               "delete" "Post" instance None = Some false).
Proof.
  intros claim.
  specialize (claim forbid_delete_post_of_9 grant_delete_post
                    [("userId", VNum 1)] [("authorId", VNum 9)]
                    (or_intror eq_refl) eq_refl).
  vm_compute in claim. discriminate claim.
Qed.

(** C2 (amended).  [createAppAbility] makes no check of its own on the
    rules.  For every rule list, also one with a rule that has no [action],
    its loop hands the builder one rule per input rule, in order, with the
    action and the subject exactly as given (a missing action stays
    missing): no rule is skipped and none is completed.  Whenever an ability
    is built, it is built from exactly these rules; and from the list
    [[{subject: "Post"}]] an ability is built, whose only rule has no
    action. *)
Theorem createAppAbility_registers_every_rule :
  forall (userRules : list AppRawRule.t) (context : object),
    let collected :=
      fold_left (register context) userRules AbilityBuilder.empty in
    List.length collected = List.length userRules /\
    (forall i rule,
        nth_error userRules i = Some rule ->
        exists raw,
          nth_error collected i = Some raw /\
          AbilityBuilder.action raw = AppRawRule.action rule /\
          AbilityBuilder.subject raw = AppRawRule.subject rule /\
          AbilityBuilder.inverted raw = AppRawRule.inverted rule) /\
    (forall ability,
        createAppAbility userRules context = Normal ability ->
        ability = AbilityBuilder.build collected) /\
    (exists raw,
        createAppAbility [rule_without_action] context = Normal [raw] /\
        AbilityBuilder.action raw = None /\
        AbilityBuilder.subject raw = Some "Post").
Proof.
  intros userRules context collected.
  assert (E : collected = map (registered context) userRules).
  { unfold collected, AbilityBuilder.empty. now rewrite fold_register. }
  clearbody collected. subst collected.
  split; [apply length_map|]. split; [|split].
  - intros i rule H. exists (registered context rule).
    rewrite nth_error_map, H. repeat split.
  - intros ability H. rewrite createAppAbility_registered in H.
    now injection H as <-.
  - exists (registered context rule_without_action).
    rewrite createAppAbility_registered. repeat split.
Qed.

Lemma createAppAbility_registers_every_rule_witness :
  let userRules := [rule_without_action; forbid_delete_post_of_9] in
  let context := [("userId", VNum 1)] in
  (exists raw,
      nth_error (fold_left (register context) userRules AbilityBuilder.empty) 0
      = Some raw /\
      AbilityBuilder.action raw = None /\
      AbilityBuilder.subject raw = Some "Post" /\
      AbilityBuilder.inverted raw = false) /\
  (forall ability,
      createAppAbility userRules context = Normal ability ->
      List.length ability = 2).
Proof.
  intros userRules context.
  pose proof (createAppAbility_registers_every_rule userRules context)
    as (Hlen & Hnth & Hbuilt & _).
  split.
  - exact (Hnth 0 rule_without_action eq_refl).
  - intros ability H. rewrite (Hbuilt ability H). exact Hlen.
Defined.

(** C2 as written fails: the list [[{subject: "Post"}]] builds an ability
    whose only rule has no action. *)
Lemma rule_without_action_is_accepted :
  createAppAbility [rule_without_action] [("userId", VNum 1)]
  = Normal [ {| AbilityBuilder.action := None;
                AbilityBuilder.subject := Some "Post";
                AbilityBuilder.fields := None;
                AbilityBuilder.conditions := None;
                AbilityBuilder.inverted := false |} ] /\
  ~ (exists field,
        createAppAbility [rule_without_action] [("userId", VNum 1)]
        = Throw (MalformedRuleError field)).
Proof.
  split; [reflexivity|]. intros [field H]. discriminate H.
Qed.

(** C4 (amended).  A template whose name is no property of the context,
    neither an own key nor a member inherited from [Object.prototype] (the
    test [name in context] fails), is replaced by [undefined]; nothing is
    raised.  An ability built from a rule with such a condition denies every
    query on an instance whose member under the condition's key is
    defined. *)
Theorem unresolved_template_denies :
  forall (rule : AppRawRule.t) (context c : object) i key name
         a s (instance : object) field,
    AppRawRule.conditions rule = Some c ->
    nth_error c i = Some (key, VStr ("{{" ++ name ++ "}}")%string) ->
    has_property context name = false ->
    get instance key <> VUndefined ->
    (exists c',
        interpolateConditions (Some c) context = Some c' /\
        nth_error c' i = Some (key, VUndefined)) /\
    answer (createAppAbility [rule] context) a s instance field = Some false.
Proof.
  intros rule context c i key name a s instance field Hc Hnth Hctx Hdef.
  assert (Hget : get context name = VUndefined).
  { unfold has_property in Hctx. unfold get.
    destruct (own name context); [discriminate|]. now rewrite Hctx. }
  pose proof (interpolated_nth context c i key _ Hnth) as Hi.
  rewrite substitute_template, Hget in Hi.
  split.
  { eexists. split; [apply interpolateConditions_some | exact Hi]. }
  rewrite createAppAbility_registered. simpl. f_equal.
  apply can_no_match. intros raw [<-|[]].
  assert (Hf : Ability.conditions_hold
                 (interpolateConditions (Some c) context) instance = false).
  { rewrite interpolateConditions_some.
    apply (conditions_fail instance _ key VUndefined).
    - eapply nth_error_In. exact Hi.
    - destruct (strict_equals (get instance key) VUndefined) eqn:E;
        [|reflexivity].
      now apply strict_equals_undefined in E. }
  unfold Ability.matches, registered.
  cbn [AbilityBuilder.conditions]. rewrite Hc, Hf.
  now rewrite andb_false_r.
Qed.

(** C4 as written fails: [toString] is not a key of the context
    [{userId: 7}], and yet the template [{{toString}}] is not replaced by
    [undefined]: the lookup [context["toString"]] finds the member that
    every object inherits from [Object.prototype]. *)
Lemma inherited_name_is_not_undefined :
  ~ (forall (rule : AppRawRule.t) (context c : object) i key name
            a s (instance : object) field,
        AppRawRule.conditions rule = Some c ->
        nth_error c i = Some (key, VStr ("{{" ++ name ++ "}}")%string) ->
        own name context = None ->
        get instance key <> VUndefined ->
        (exists c',
            interpolateConditions (Some c) context = Some c' /\
            nth_error c' i = Some (key, VUndefined)) /\
        answer (createAppAbility [rule] context) a s instance field
        = Some false).
Proof.
  intros claim.
  destruct (claim (AppRawRule.make (Some "delete") (Some "Post")
                     (Some [("authorId", VStr "{{toString}}")])
                     None false None)
                  [("userId", VNum 7)]
                  [("authorId", VStr "{{toString}}")] 0 "authorId" "toString"
                  "delete" "Post" [("id", VNum 1); ("authorId", VNum 7)] None
                  eq_refl eq_refl eq_refl ltac:(discriminate))
    as ((c' & Hc' & Hnth) & _).
  vm_compute in Hc'. injection Hc' as <-.
  vm_compute in Hnth. discriminate Hnth.
Qed.

(** A name the context inherits from [Object.prototype] is present in the
    sense of [in]: its template resolves to the inherited member. *)
Remark inherited_name_resolves :
  has_property [("userId", VNum 7)] "toString" = true /\
  interpolateConditions (Some [("authorId", VStr "{{toString}}")])
                        [("userId", VNum 7)]
  = Some [("authorId", VInherited "toString")].
Proof. split; reflexivity. Qed.

Lemma unresolved_template_denies_witness :
  let rule :=
    AppRawRule.make (Some "delete") (Some "Post")
                    (Some [("authorId", VStr "{{missingKey}}")])
                    None false None in
  let context := [("userId", VNum 7)] in
  (exists c',
      interpolateConditions (Some [("authorId", VStr "{{missingKey}}")]) context
      = Some c' /\
      nth_error c' 0 = Some ("authorId", VUndefined)) /\
  answer (createAppAbility [rule] context)
         "delete" "Post" [("id", VNum 1); ("authorId", VNum 7)] None
  = Some false.
Proof.
  intros rule context.
  apply (unresolved_template_denies rule context
           [("authorId", VStr "{{missingKey}}")] 0 "authorId" "missingKey"
           "delete" "Post" [("id", VNum 1); ("authorId", VNum 7)] None).
  - reflexivity.
  - reflexivity.
  - reflexivity.
  - discriminate.
Defined.

(** C10.  A rule with [inverted = true] is registered through
    [cannot(action, subject, conditions)]: its [fields] list is not passed
    on, so that the registered denial carries the action, the subject and the
    interpolated conditions only, while a rule that is not inverted keeps its
    [fields].  When such a denial is the last rule matching a query on its
    action, subject and an instance satisfying its conditions, every field of
    the subject is denied, also one outside the declared list. *)
Theorem inverted_rule_discards_fields :
  forall (before after : list AppRawRule.t) (rule : AppRawRule.t)
         (context : object),
    AppRawRule.inverted rule = true ->
    (exists ability raw,
        createAppAbility (before ++ rule :: after) context = Normal ability /\
        nth_error ability (List.length before) = Some raw /\
        AbilityBuilder.fields raw = None /\
        AbilityBuilder.inverted raw = true /\
        AbilityBuilder.action raw = AppRawRule.action rule /\
        AbilityBuilder.subject raw = AppRawRule.subject rule /\
        AbilityBuilder.conditions raw
        = interpolateConditions (AppRawRule.conditions rule) context) /\
    (forall a s instance f,
        AppRawRule.action rule = Some a ->
        AppRawRule.subject rule = Some s ->
        Ability.conditions_hold
          (interpolateConditions (AppRawRule.conditions rule) context)
          instance = true ->
        (forall later, In later after ->
           Ability.matches (registered context later) a s instance (Some f)
           = false) ->
        answer (createAppAbility (before ++ rule :: after) context)
               a s instance (Some f) = Some false) /\
    (forall granted,
        AppRawRule.inverted granted = false ->
        AbilityBuilder.fields (registered context granted)
        = AppRawRule.fields granted).
Proof.
  intros before after rule context Hinv. split; [|split].
  - exists (map (registered context) (before ++ rule :: after)),
           (registered context rule).
    split; [apply createAppAbility_registered|].
    split.
    + rewrite nth_error_map, nth_error_app2, Nat.sub_diag by lia.
      reflexivity.
    + unfold registered. simpl. rewrite Hinv. repeat split.
  - intros a s instance f Ha Hs Hcond Hafter.
    rewrite createAppAbility_registered. simpl. f_equal.
    rewrite map_app. simpl.
    rewrite (can_last_match a s instance (Some f) _ _ (registered context rule)).
    + simpl. now rewrite Hinv.
    + unfold Ability.matches, registered. simpl.
      rewrite Ha, Hs, Hinv, Hcond. simpl.
      now rewrite !String.eqb_refl.
    + intros later Hin. apply in_map_iff in Hin as (r & <- & Hr).
      now apply Hafter.
  - intros granted Hg. unfold registered. simpl. now rewrite Hg.
Qed.

Lemma inverted_rule_discards_fields_witness :
  let forbid_title :=
    AppRawRule.make (Some "update") (Some "Post") None
                    (Some ["title"]) true (Some "frozen") in
  let grant_update :=
    AppRawRule.make (Some "update") (Some "Post") None None false None in
  let context := [("userId", VNum 1)] in
  AppRawRule.inverted forbid_title = true /\
  answer (createAppAbility ([grant_update] ++ forbid_title :: []) context)
         "update" "Post" [("id", VNum 1)] (Some "content") = Some false.
Proof.
  intros forbid_title grant_update context. split; [reflexivity|].
  apply (proj1 (proj2 (inverted_rule_discards_fields
                         [grant_update] [] forbid_title context eq_refl))).
  - reflexivity.
  - reflexivity.
  - reflexivity.
  - intros later [].
Defined.

(** ** Property lists *)

Section Props.

Context {V : Type}.

Implicit Types (o : props V) (k : string) (v : V).

Lemma own_none o k : own k o = None <-> ~ In k (map fst o).
Proof.
  induction o as [|[k' v'] o IH]; simpl.
  - tauto.
  - destruct (k' =? k)%string eqn:E.
    + apply String.eqb_eq in E. split; [discriminate | tauto].
    + apply String.eqb_neq in E. rewrite IH. tauto.
Qed.

Lemma in_own o k v : NoDup (map fst o) -> In (k, v) o -> own k o = Some v.
Proof.
  induction o as [|[k' v'] o IH]; simpl; [tauto|].
  intros Hnd [H|H].
  - injection H as -> ->. now rewrite String.eqb_refl.
  - inversion Hnd as [|x l Hnotin Hnd']; subst.
    destruct (k' =? k)%string eqn:E.
    + apply String.eqb_eq in E. subst k'.
      exfalso. apply Hnotin. now apply (in_map fst) in H.
    + now apply IH.
Qed.

Lemma in_insert_index n k v o e :
  In e (insert_index n k v o) <-> e = (k, v) \/ In e o.
Proof.
  induction o as [|[k' v'] o IH]; simpl.
  - intuition congruence.
  - destruct (array_index k') as [n'|]; [destruct (n <? n')%N|]; simpl;
      try rewrite IH; intuition congruence.
Qed.

Lemma nodup_insert_index n k v o :
  ~ In k (map fst o) -> NoDup (map fst o) ->
  NoDup (map fst (insert_index n k v o)).
Proof.
  induction o as [|[k' v'] o IH]; simpl; intros Hk Hnd.
  - constructor; [tauto | constructor].
  - assert (Hall : NoDup (k :: k' :: map fst o)) by (constructor; simpl; tauto).
    destruct (array_index k') as [n'|]; [destruct (n <? n')%N|]; simpl;
      try exact Hall.
    inversion Hnd as [|x l Hnotin Hnd']; subst.
    constructor.
    + intros Hin. apply in_map_iff in Hin as ([k2 v2] & Hfst & Hin).
      simpl in Hfst. subst k2. apply in_insert_index in Hin as [Heq|Hin].
      * injection Heq as -> _. tauto.
      * apply Hnotin. now apply (in_map fst) in Hin.
    + apply IH; tauto.
Qed.

Lemma nodup_create k v o :
  own k o = None -> NoDup (map fst o) -> NoDup (map fst (create k v o)).
Proof.
  intros Hk Hnd. apply own_none in Hk. unfold create.
  destruct (array_index k).
  - now apply nodup_insert_index.
  - rewrite map_app. simpl.
    apply NoDup_app; [exact Hnd | constructor; [tauto | constructor] |].
    intros x Hx [<-|[]]. tauto.
Qed.

Lemma own_create_same k v o :
  own k o = None -> own k (create k v o) = Some v.
Proof.
  intros Hk. unfold create. destruct (array_index k) as [n|].
  - induction o as [|[k' v'] o IH]; simpl in *.
    + now rewrite String.eqb_refl.
    + destruct (k' =? k)%string eqn:E; [discriminate|].
      destruct (array_index k') as [n'|]; [destruct (n <? n')%N|]; simpl;
        rewrite ?String.eqb_refl, ?E; auto.
  - induction o as [|[k' v'] o IH]; simpl in *.
    + now rewrite String.eqb_refl.
    + destruct (k' =? k)%string eqn:E; [discriminate | auto].
Qed.

Lemma own_replace_same k v o :
  own k o <> None -> own k (replace k v o) = Some v.
Proof.
  induction o as [|[k' v'] o IH]; simpl; [congruence|].
  destruct (k' =? k)%string eqn:E; simpl; rewrite E; auto.
Qed.

Lemma own_replace_other k k' v o :
  k' <> k -> own k' (replace k v o) = own k' o.
Proof.
  intros Hne. induction o as [|[k2 v2] o IH]; simpl; [reflexivity|].
  destruct (k2 =? k)%string eqn:E; simpl.
  - apply String.eqb_eq in E. subst k2.
    replace (k =? k')%string with false; [reflexivity|].
    symmetry. apply String.eqb_neq. congruence.
  - now rewrite IH.
Qed.

Lemma own_create_other k k' v o :
  k' <> k -> own k' (create k v o) = own k' o.
Proof.
  intros Hne. unfold create. destruct (array_index k) as [n|].
  - induction o as [|[k2 v2] o IH]; simpl.
    + apply String.eqb_neq in Hne. rewrite String.eqb_sym. now rewrite Hne.
    + destruct (array_index k2) as [n2|]; [destruct (n <? n2)%N|]; simpl.
      * replace (k =? k')%string with false; [reflexivity|].
        symmetry. apply String.eqb_neq. congruence.
      * now rewrite IH.
      * replace (k =? k')%string with false; [reflexivity|].
        symmetry. apply String.eqb_neq. congruence.
  - induction o as [|[k2 v2] o IH]; simpl.
    + replace (k =? k')%string with false; [reflexivity|].
      symmetry. apply String.eqb_neq. congruence.
    + now rewrite IH.
Qed.

Lemma own_define_same k v o : own k (define k v o) = Some v.
Proof.
  unfold define. destruct (own k o) eqn:E.
  - apply own_replace_same. congruence.
  - now apply own_create_same.
Qed.

Lemma own_define_other k k' v o : k' <> k -> own k' (define k v o) = own k' o.
Proof.
  intros Hne. unfold define. destruct (own k o).
  - now apply own_replace_other.
  - now apply own_create_other.
Qed.

Lemma keys_modify k (f : V -> V) o : map fst (modify k f o) = map fst o.
Proof.
  induction o as [|[k' v'] o IH]; simpl; [reflexivity|].
  destruct (k' =? k)%string; simpl; [reflexivity | now rewrite IH].
Qed.

Lemma own_modify_same k (f : V -> V) o :
  own k (modify k f o) = option_map f (own k o).
Proof.
  induction o as [|[k' v'] o IH]; simpl; [reflexivity|].
  destruct (k' =? k)%string eqn:E; simpl; rewrite E; [reflexivity | exact IH].
Qed.

Lemma own_modify_other k k' (f : V -> V) o :
  k' <> k -> own k' (modify k f o) = own k' o.
Proof.
  intros Hne. induction o as [|[k2 v2] o IH]; simpl; [reflexivity|].
  destruct (k2 =? k)%string eqn:E; simpl.
  - apply String.eqb_eq in E. subst k2.
    replace (k =? k')%string with false; [reflexivity|].
    symmetry. apply String.eqb_neq. congruence.
  - now rewrite IH.
Qed.

End Props.

(** ** Extraction *)

Lemma Node_ind' (P : Node -> Prop) :
  P Leaf ->
  (forall policy, P (Route policy)) ->
  (forall entries, Forall (fun e => P (snd e)) entries -> P (Group entries)) ->
  forall value, P value.
Proof.
  intros HL HR HG. fix IH 1.
  intros [|policy|entries]; [exact HL | apply HR | apply HG].
  induction entries as [|[k v] rest IHrest]; constructor;
    [apply IH | exact IHrest].
Qed.

Section Traversal.

Lemma visit_group (entries : list (string * Node)) (p : AppPolicy) :
  visit (Group entries) p = traverse entries p.
Proof.
  revert p. induction entries as [|[k v] rest IH]; intros p;
    [reflexivity|].
  simpl. destruct (visit v p); [apply IH | reflexivity].
Qed.

Lemma routes_of_group (entries : list (string * Node)) :
  routes_of (Group entries) = routes entries.
Proof.
  induction entries as [|[k v] rest IH]; [reflexivity|].
  simpl in *. now rewrite IH.
Qed.

Lemma visit_routes_app (r1 r2 : list Annotation.t) (p : AppPolicy) :
  visit_routes (r1 ++ r2) p
  = match visit_routes r1 p with
    | Normal p' => visit_routes r2 p'
    | Throw e => Throw e
    end.
Proof.
  revert p. induction r1 as [|policy rest IH]; intros p; simpl;
    [reflexivity|].
  destruct (visit_subjects policy (Annotation.subjects policy) p);
    [apply IH | reflexivity].
Qed.

(** A walk only depends on the annotations it meets, in order. *)
Lemma visit_routes_of (value : Node) :
  forall p, visit value p = visit_routes (routes_of value) p.
Proof.
  induction value as [|policy|entries IH] using Node_ind'; intros p.
  - reflexivity.
  - simpl. now destruct (visit_subjects policy _ p).
  - rewrite visit_group, routes_of_group. revert p.
    induction IH as [|[k v] rest Hv _ IHrest]; intros p; [reflexivity|].
    simpl in *. rewrite visit_routes_app, <- Hv.
    destruct (visit v p); [apply IHrest | reflexivity].
Qed.

Lemma traverse_routes (obj : list (string * Node)) (p : AppPolicy) :
  traverse obj p = visit_routes (routes obj) p.
Proof.
  revert p. induction obj as [|[k v] rest IH]; intros p; [reflexivity|].
  simpl. rewrite visit_routes_app, <- visit_routes_of.
  destruct (visit v p); [apply IH | reflexivity].
Qed.

End Traversal.

(** C5.  Every contract whose policy-bearing nodes are, in depth-first
    order, node A [{subjects: ["Post"], actions: ["read"]}] and node B
    [{subjects: ["Post"], actions: ["delete"],
      conditions: {authorId: "{{userId}}"}}] is extracted to exactly
    [{Post: {actions: ["read", "delete"], permissions: [read Post;
      delete Post with the conditions of B]}}]. *)
Theorem extractAppPolicy_two_routes :
  forall contract : list (string * Node),
    routes contract = [node_A; node_B] ->
    extractAppPolicy contract = Normal schema_A_B.
Proof.
  intros contract H. unfold extractAppPolicy.
  rewrite traverse_routes, H. reflexivity.
Qed.

Lemma extractAppPolicy_two_routes_witness :
  let contract :=
    [ ("posts", Group [ ("version", Leaf);
                        ("viewPosts", Route node_A);
                        ("admin", Group [ ("deletePost", Route node_B) ]) ]);
      ("policy", Group [ ("getUserPolicy", Group [ ("method", Leaf) ]) ]) ] in
  routes contract = [node_A; node_B] /\
  extractAppPolicy contract = Normal schema_A_B.
Proof.
  intros contract. split; [reflexivity|].
  apply (extractAppPolicy_two_routes contract). reflexivity.
Defined.

(** *** What the schema holds after a walk *)

Section Schema.

Lemma modify_modify {V} (k : string) (f g : V -> V) (o : props V) :
  modify k f (modify k g o) = modify k (fun v => f (g v)) o.
Proof.
  induction o as [|[k' v'] o IH]; simpl; [reflexivity|].
  destruct (k' =? k)%string eqn:E; simpl; rewrite E;
    [reflexivity | now rewrite IH].
Qed.

Lemma modify_id {V} (k : string) (o : props V) : modify k (fun v => v) o = o.
Proof.
  induction o as [|[k' v'] o IH]; simpl; [reflexivity|].
  destruct (k' =? k)%string; [reflexivity | now rewrite IH].
Qed.

(** A loop of in-place changes of one entry is one change of that entry. *)
Lemma fold_modify {V A} (k : string) (g : A -> V -> V) (l : list A)
      (o : props V) :
  fold_left (fun p a => modify k (g a) p) l o
  = modify k (fun v => fold_left (fun v a => g a v) l v) o.
Proof.
  revert o. induction l as [|a l IH]; intros o; simpl.
  - now rewrite modify_id.
  - rewrite IH, modify_modify. reflexivity.
Qed.

Lemma add_action_permissions (action : string) (e : SubjectPolicy.t) :
  SubjectPolicy.permissions (add_action action e)
  = SubjectPolicy.permissions e.
Proof.
  unfold add_action. now destruct (existsb _ _).
Qed.

Lemma add_action_nodup (action : string) (e : SubjectPolicy.t) :
  NoDup (SubjectPolicy.actions e) ->
  NoDup (SubjectPolicy.actions (add_action action e)).
Proof.
  intros H. unfold add_action.
  destruct (existsb _ _) eqn:E; [exact H|]. simpl.
  apply NoDup_app; [exact H | constructor; [tauto | constructor] |].
  intros x Hx [Heq|[]]. subst x.
  assert (existsb (String.eqb action) (SubjectPolicy.actions e) = true);
    [|congruence].
  apply existsb_exists. exists action.
  split; [exact Hx | apply String.eqb_refl].
Qed.

Lemma add_action_in (action a : string) (e : SubjectPolicy.t) :
  In a (SubjectPolicy.actions (add_action action e)) <->
  In a (SubjectPolicy.actions e) \/ a = action.
Proof.
  unfold add_action. destruct (existsb _ _) eqn:E; simpl.
  - split; [tauto|]. intros [H| ->]; [exact H|].
    apply existsb_exists in E as (x & Hx & Heq).
    apply String.eqb_eq in Heq. now subst x.
  - rewrite in_app_iff. simpl. intuition congruence.
Qed.

Lemma add_actions (actions : list string) (e : SubjectPolicy.t) :
  NoDup (SubjectPolicy.actions e) ->
  let e' := fold_left (fun e a => add_action a e) actions e in
  NoDup (SubjectPolicy.actions e') /\
  SubjectPolicy.permissions e' = SubjectPolicy.permissions e /\
  (forall a, In a (SubjectPolicy.actions e') <->
             In a (SubjectPolicy.actions e) \/ In a actions).
Proof.
  revert e. induction actions as [|a0 rest IH]; intros e H; simpl.
  - tauto.
  - destruct (IH (add_action a0 e) (add_action_nodup a0 e H))
      as (H1 & H2 & H3).
    split; [exact H1|]. split; [now rewrite H2, add_action_permissions|].
    intros a. rewrite H3, add_action_in. intuition congruence.
Qed.

Lemma add_permissions (mk : string -> PolicyRule.t) (actions : list string)
      (e : SubjectPolicy.t) :
  let e' := fold_left (fun e a => add_permission (mk a) e) actions e in
  SubjectPolicy.actions e' = SubjectPolicy.actions e /\
  SubjectPolicy.permissions e'
  = SubjectPolicy.permissions e ++ map mk actions.
Proof.
  revert e. induction actions as [|a rest IH]; intros e; simpl.
  - now rewrite app_nil_r.
  - destruct (IH (add_permission (mk a) e)) as [H1 H2].
    split; [exact H1|]. rewrite H2. simpl. now rewrite <- app_assoc.
Qed.

Lemma filter_none {A} (f : A -> bool) (l : list A) :
  (forall x, In x l -> f x = false) -> filter f l = [].
Proof.
  induction l as [|x l IH]; intros H; simpl; [reflexivity|].
  rewrite (H x (or_introl eq_refl)). apply IH. intros y Hy. apply H. now right.
Qed.

Lemma filter_all {A} (f : A -> bool) (l : list A) :
  (forall x, In x l -> f x = true) -> filter f l = l.
Proof.
  induction l as [|x l IH]; intros H; simpl; [reflexivity|].
  rewrite (H x (or_introl eq_refl)). f_equal. apply IH.
  intros y Hy. apply H. now right.
Qed.

Lemma accounts_empty : accounts [] [].
Proof.
  repeat split; try constructor; simpl in *; try discriminate; tauto.
Qed.

Lemma visit_subject_accounts (policy : Annotation.t) (p p' : AppPolicy)
      (D : list PolicyRule.t) (subject : string) :
  accounts p D ->
  visit_subject policy p subject = Normal p' ->
  accounts p'
    (D ++ map (fun action =>
                 PolicyRule.make action subject
                                 (Annotation.conditions policy))
              (Annotation.actions policy)).
Proof.
  intros (Hnd & Hentries & Hsubjects). unfold visit_subject.
  destruct (inherited subject).
  { destruct (Annotation.actions policy); [|discriminate].
    intros [= <-]. simpl. rewrite app_nil_r.
    exact (conj Hnd (conj Hentries Hsubjects)). }
  set (mk := fun action => PolicyRule.make action subject _).
  set (acts := Annotation.actions policy).
  set (p0 := match own subject p with
             | Some _ => p
             | None => create subject (SubjectPolicy.make [] []) p
             end).
  intros [= <-].
  rewrite !fold_modify, modify_modify.
  set (F := fun v : SubjectPolicy.t => _).
  (* the entry of [subject] before the two loops *)
  assert (H0 : exists e0,
             own subject p0 = Some e0 /\
             entry_of subject D e0 /\
             NoDup (map fst p0) /\
             forall k, k <> subject -> own k p0 = own k p).
  { subst p0. destruct (own subject p) as [e|] eqn:E.
    - exists e. split; [exact E|]. split; [now apply Hentries|].
      now split.
    - exists (SubjectPolicy.make [] []).
      split; [now apply own_create_same|]. split.
      + assert (Hnone : filter (about subject) D = []).
        { apply filter_none. intros rule Hin.
          unfold about. apply String.eqb_neq. intros Heq.
          apply (Hsubjects rule Hin). now rewrite Heq. }
        unfold entry_of. simpl. rewrite Hnone.
        split; [constructor|]. split; [reflexivity | tauto].
      + split; [now apply nodup_create|].
        intros k Hk. now apply own_create_other. }
  destruct H0 as (e0 & Hown & (Hnd0 & Hperm0 & Hact0) & Hkeys0 & Hother).
  assert (Hnew : forall rule, In rule (map mk acts) ->
                              PolicyRule.subject rule = subject).
  { intros rule Hin. apply in_map_iff in Hin as (a & <- & _). reflexivity. }
  (* the entry after them *)
  assert (HF : entry_of subject (D ++ map mk acts) (F e0)).
  { change (F e0)
      with (fold_left (fun e a => add_permission (mk a) e) acts
              (fold_left (fun e a => add_action a e) acts e0)).
    destruct (add_actions acts e0 Hnd0) as (Ha & Hp & Hin).
    destruct (add_permissions mk acts
                (fold_left (fun e a => add_action a e) acts e0))
      as [Ha' Hp'].
    cbv zeta in Ha, Hp, Hin. cbv zeta in Ha', Hp'.
    unfold entry_of. rewrite Ha', Hp', Hp, Hperm0.
    split; [exact Ha|]. split.
    - rewrite filter_app. f_equal.
      symmetry. apply filter_all. intros rule Hr. unfold about.
      rewrite (Hnew rule Hr). apply String.eqb_refl.
    - intros a. rewrite Hin, Hact0, Hperm0, map_app, in_app_iff.
      rewrite map_map. simpl. rewrite map_id. reflexivity. }
  split; [now rewrite keys_modify|]. split.
  - intros k entry Hk.
    destruct (String.eqb_spec k subject) as [->|Hne].
    + rewrite own_modify_same, Hown in Hk. injection Hk as <-. exact HF.
    + rewrite own_modify_other, Hother in Hk by exact Hne.
      destruct (Hentries k entry Hk) as (Ha & Hp & Hin).
      split; [exact Ha|]. split; [|exact Hin].
      rewrite Hp, filter_app.
      rewrite (filter_none (about k) (map mk acts)), app_nil_r;
        [reflexivity|].
      intros rule Hr. unfold about. rewrite (Hnew rule Hr).
      apply String.eqb_neq. congruence.
  - intros rule Hin.
    destruct (String.eqb_spec (PolicyRule.subject rule) subject)
      as [->|Hne].
    + rewrite own_modify_same, Hown. discriminate.
    + rewrite own_modify_other, Hother by exact Hne.
      apply in_app_iff in Hin as [Hin|Hin]; [now apply Hsubjects|].
      now apply Hnew in Hin.
Qed.

Lemma visit_subjects_accounts (policy : Annotation.t)
      (subjects : list string) :
  forall (p p' : AppPolicy) (D : list PolicyRule.t),
    accounts p D ->
    visit_subjects policy subjects p = Normal p' ->
    accounts p'
      (D ++ flat_map
              (fun subject =>
                 map (fun action =>
                        PolicyRule.make action subject
                                        (Annotation.conditions policy))
                     (Annotation.actions policy))
              subjects).
Proof.
  induction subjects as [|subject rest IH]; intros p p' D Hacc; simpl.
  - intros [= <-]. now rewrite app_nil_r.
  - destruct (visit_subject policy p subject) as [p1|] eqn:E;
      [|discriminate].
    intros H. rewrite app_assoc.
    apply (IH p1 p' _ (visit_subject_accounts _ _ _ _ _ Hacc E) H).
Qed.

Lemma visit_routes_accounts (policies : list Annotation.t) :
  forall (p p' : AppPolicy) (D : list PolicyRule.t),
    accounts p D ->
    visit_routes policies p = Normal p' ->
    accounts p' (D ++ flat_map declared_by policies).
Proof.
  induction policies as [|policy rest IH]; intros p p' D Hacc; simpl.
  - intros [= <-]. now rewrite app_nil_r.
  - destruct (visit_subjects policy _ p) as [p1|] eqn:E; [|discriminate].
    intros H. rewrite app_assoc.
    apply (IH p1 p' _ (visit_subjects_accounts _ _ _ _ _ Hacc E) H).
Qed.

Lemma extractAppPolicy_accounts (contract : list (string * Node))
      (schema : AppPolicy) :
  extractAppPolicy contract = Normal schema ->
  accounts schema (declared contract).
Proof.
  unfold extractAppPolicy. rewrite traverse_routes. intros H.
  apply (visit_routes_accounts _ _ _ [] accounts_empty H).
Qed.

End Schema.

(** Extraction completes on every contract whose subjects are not named like
    a member of [Object.prototype]. *)
Lemma extractAppPolicy_completes (contract : list (string * Node)) :
  (forall policy subject,
      In policy (routes contract) ->
      In subject (Annotation.subjects policy) ->
      inherited subject = false) ->
  exists schema, extractAppPolicy contract = Normal schema.
Proof.
  unfold extractAppPolicy. rewrite traverse_routes.
  generalize (@nil (string * SubjectPolicy.t)) as p.
  induction (routes contract) as [|policy rest IH]; intros p H; simpl.
  - now exists p.
  - assert (Hs : forall subjects q,
               (forall subject, In subject subjects ->
                                inherited subject = false) ->
               exists q', visit_subjects policy subjects q = Normal q').
    { induction subjects as [|subject more IHs]; intros q Hq; simpl.
      - now exists q.
      - unfold visit_subject. rewrite (Hq subject (or_introl eq_refl)).
        apply IHs. intros x Hx. apply Hq. now right. }
    destruct (Hs (Annotation.subjects policy) p) as [q' ->].
    + intros subject Hin. apply (H policy subject); [now left | exact Hin].
    + apply IH. intros pol subject Hp Hin. apply (H pol subject);
        [now right | exact Hin].
Qed.

(** C6.  In every schema [extractAppPolicy] produces, the [actions] list of
    each subject has no duplicates (it holds each action of the subject's
    permissions once), while its [permissions] list is exactly the sequence
    of all rules the contract declares for that subject, in traversal order
    and with repetitions: a combination declared by two routes appears
    twice. *)
Theorem extractAppPolicy_actions_distinct_permissions_all :
  forall (contract : list (string * Node)) (schema : AppPolicy),
    extractAppPolicy contract = Normal schema ->
    forall subject entry,
      In (subject, entry) schema ->
      NoDup (SubjectPolicy.actions entry) /\
      SubjectPolicy.permissions entry
      = filter (about subject) (declared contract) /\
      (forall action,
          In action (SubjectPolicy.actions entry) <->
          In action (map PolicyRule.action (SubjectPolicy.permissions entry))).
Proof.
  intros contract schema H subject entry Hin.
  destruct (extractAppPolicy_accounts contract schema H) as (Hnd & He & _).
  apply He. now apply in_own.
Qed.

Lemma extractAppPolicy_actions_distinct_permissions_all_witness :
  let contract := [ ("listPosts", Route node_A); ("feed", Route node_A) ] in
  let entry :=
    SubjectPolicy.make ["read"]
                       [ PolicyRule.make "read" "Post" None;
                         PolicyRule.make "read" "Post" None ] in
  extractAppPolicy contract = Normal [("Post", entry)] /\
  NoDup (SubjectPolicy.actions entry) /\
  SubjectPolicy.permissions entry = filter (about "Post") (declared contract) /\
  (forall action,
      In action (SubjectPolicy.actions entry) <->
      In action (map PolicyRule.action (SubjectPolicy.permissions entry))).
Proof.
  intros contract entry. split; [reflexivity|].
  apply (extractAppPolicy_actions_distinct_permissions_all
           contract [("Post", entry)] eq_refl "Post" entry).
  left. reflexivity.
Defined.

(** ** The default policy *)

Section Default.

Lemma copy_permissions (permissions rules : list PolicyRule.t) :
  fold_left
    (fun rules permission =>
       rules ++ [ PolicyRule.make (PolicyRule.action permission)
                                  (PolicyRule.subject permission)
                                  (PolicyRule.conditions permission) ])
    permissions rules
  = rules ++ permissions.
Proof.
  revert rules. induction permissions as [|[a s c] rest IH]; intros rules;
    simpl.
  - now rewrite app_nil_r.
  - rewrite IH, <- app_assoc. reflexivity.
Qed.

Lemma createDefaultUserPolicy_from (appPolicy : AppPolicy)
      (rules : list PolicyRule.t) :
  fold_left
    (fun rules '(_, config) =>
       fold_left
         (fun rules permission =>
            rules ++ [ PolicyRule.make (PolicyRule.action permission)
                                       (PolicyRule.subject permission)
                                       (PolicyRule.conditions permission) ])
         (SubjectPolicy.permissions config) rules)
    appPolicy rules
  = rules ++ concat (map (fun e => SubjectPolicy.permissions (snd e))
                         appPolicy).
Proof.
  revert rules. induction appPolicy as [|[k config] rest IH]; intros rules;
    simpl.
  - now rewrite app_nil_r.
  - rewrite copy_permissions, IH, <- app_assoc. reflexivity.
Qed.

End Default.

(** C7.  [createDefaultUserPolicy] returns the concatenation of the
    [permissions] lists of the subjects, in the order the schema enumerates
    the subjects and keeping the order inside each list; each returned rule
    has the action, subject and conditions of the entry it comes from, and the
    number of rules is the sum of the lengths of the [permissions] lists. *)
Theorem createDefaultUserPolicy_flattens :
  forall appPolicy : AppPolicy,
    createDefaultUserPolicy appPolicy
    = concat (map (fun e => SubjectPolicy.permissions (snd e)) appPolicy) /\
    List.length (createDefaultUserPolicy appPolicy)
    = list_sum (map (fun e => List.length (SubjectPolicy.permissions (snd e)))
                    appPolicy).
Proof.
  intros appPolicy.
  assert (H : createDefaultUserPolicy appPolicy
              = concat (map (fun e => SubjectPolicy.permissions (snd e))
                            appPolicy)).
  { unfold createDefaultUserPolicy.
    now rewrite createDefaultUserPolicy_from. }
  split; [exact H|]. rewrite H. clear H.
  induction appPolicy as [|[k config] rest IH]; simpl; [reflexivity|].
  now rewrite List.length_app, IH.
Qed.

(** ** Interpolation on the store *)

Section OnTheStore.

Variable context : object.

Local Abbreviation entry := (interpolate_entry context).

Lemma update_last (f : object -> object) (h : Store.heap) (o : object) :
  Store.update_cell (List.length h) f (h ++ [o]) = h ++ [f o].
Proof.
  induction h as [|x h IH]; simpl; [reflexivity | now rewrite IH].
Qed.

Lemma nth_last (h : Store.heap) (o : object) : nth (List.length h) (h ++ [o]) [] = o.
Proof.
  rewrite app_nth2, Nat.sub_diag by lia. reflexivity.
Qed.

(** The loop writes to the new object only. *)
Lemma for_of_assigns (entries : object) (h : Store.heap) (o : object) :
  Store.for_of entries (fun '(key, v) =>
    match v with
    | VStr s =>
        if startsWith s "{{" && endsWith s "}}"
        then Store.assign (List.length h) key (get context (slice s 2 (-2)))
        else Store.ret tt
    | _ => Store.ret tt
    end) (h ++ [o])
  = (tt, h ++ [assign_templates context entries o]).
Proof.
  revert o. induction entries as [|[key v] rest IH]; intros o;
    [reflexivity|].
  cbn [Store.for_of]. unfold Store.bind at 1.
  unfold assign_templates. cbn [fold_left]. fold (assign_templates context).
  destruct v as [| |b|n|s|r|i]; try (cbn [Store.ret]; apply IH).
  destruct (startsWith s "{{" && endsWith s "}}").
  - unfold Store.assign. rewrite update_last. apply IH.
  - cbn [Store.ret]. apply IH.
Qed.

(** Replacing the value met at its own position. *)
Lemma define_at (done rest : object) (key : string) (v x : value) :
  ~ In key (map fst done) ->
  define key x (done ++ (key, v) :: rest) = done ++ (key, x) :: rest.
Proof.
  intros Hk. unfold define.
  assert (Hown : own key (done ++ (key, v) :: rest) = Some v).
  { induction done as [|[k' v'] done IH]; simpl in *.
    - now rewrite String.eqb_refl.
    - destruct (String.eqb_spec k' key); [tauto|]. apply IH. tauto. }
  rewrite Hown. clear Hown.
  induction done as [|[k' v'] done IH]; simpl in *.
  - now rewrite String.eqb_refl.
  - destruct (String.eqb_spec k' key); [tauto|]. f_equal. apply IH. tauto.
Qed.

Lemma assign_templates_from (done rest : object) :
  NoDup (map fst (done ++ rest)) ->
  assign_templates context rest (map entry done ++ rest)
  = map entry (done ++ rest).
Proof.
  revert done. induction rest as [|[key v] rest IH]; intros done Hnd.
  - simpl. now rewrite !app_nil_r.
  - assert (Hk : ~ In key (map fst (map entry done))).
    { rewrite interpolated_keys. rewrite map_app in Hnd.
      simpl in Hnd.
      apply NoDup_remove_2 in Hnd. rewrite in_app_iff in Hnd. tauto. }
    assert (Hnext : assign_templates context rest
                      (map entry done ++ (key, substitute context v) :: rest)
                    = map entry (done ++ (key, v) :: rest)).
    { specialize (IH (done ++ [(key, v)])).
      replace ((done ++ [(key, v)]) ++ rest)
        with (done ++ (key, v) :: rest) in IH
        by (now rewrite <- app_assoc).
      replace (map entry (done ++ [(key, v)]) ++ rest)
        with (map entry done ++ (key, substitute context v) :: rest) in IH
        by (now rewrite map_app, <- app_assoc).
      exact (IH Hnd). }
    unfold assign_templates. cbn [fold_left]. fold (assign_templates context).
    destruct v as [| |b|n|s|r|i]; try exact Hnext.
    unfold substitute in Hnext.
    destruct (startsWith s "{{" && endsWith s "}}").
    + rewrite define_at by exact Hk. exact Hnext.
    + exact Hnext.
Qed.

(** On an object with distinct keys the loop computes the interpolation. *)
Lemma assign_templates_interpolates (c : object) :
  NoDup (map fst c) ->
  Some (assign_templates context c c) = interpolateConditions (Some c) context.
Proof.
  intros H. simpl. f_equal.
  apply (assign_templates_from [] c H).
Qed.

(** [interpolateConditions] returns a falsy argument as it is and touches
    nothing; otherwise it allocates one object, the copy it then fills. *)
Lemma interpolateConditions_falsy (conditions : value) (h : Store.heap) :
  truthy conditions = false ->
  Store.interpolateConditions conditions context h = (conditions, h).
Proof.
  intros H. unfold Store.interpolateConditions. now rewrite H.
Qed.

Lemma interpolateConditions_truthy (conditions : value) (h : Store.heap) :
  truthy conditions = true ->
  exists copied,
    Store.interpolateConditions conditions context h
    = (VRef (List.length h), h ++ [assign_templates context copied copied]) /\
    forall c, conditions = VRef c -> copied = nth c h [].
Proof.
  intros H. unfold Store.interpolateConditions. rewrite H. cbn [negb].
  unfold Store.bind at 1. unfold Store.properties at 1.
  set (copied := match conditions with
                 | VRef r => nth r h []
                 | VStr s => Store.characters 0 s
                 | _ => []
                 end).
  exists copied. split.
  - unfold Store.bind at 1. unfold Store.alloc.
    unfold Store.bind at 1. unfold Store.properties. rewrite nth_last.
    unfold Store.bind. rewrite for_of_assigns. reflexivity.
  - intros c ->. reflexivity.
Qed.

(** On the store the function computes what [interpolateConditions] says:
    the result is a new object holding the interpolation of the given one,
    and the falsy values are returned as they are. *)
Lemma store_interpolateConditions_agrees (c : ref) (h : Store.heap) :
  NoDup (map fst (nth c h [])) ->
  exists c',
    Store.interpolateConditions (VRef c) context h
    = (VRef (List.length h), h ++ [c']) /\
    interpolateConditions (Some (nth c h [])) context = Some c'.
Proof.
  intros Hnd.
  destruct (interpolateConditions_truthy (VRef c) h eq_refl)
    as (copied & Heq & Hc).
  rewrite (Hc c eq_refl) in Heq.
  eexists. split; [exact Heq|].
  symmetry. now apply assign_templates_interpolates.
Qed.

End OnTheStore.

Section PolicyOnTheStore.

Variable context : object.

Local Abbreviation step :=
  (fun rule : ref =>
     Store.bind (Store.properties (VRef rule)) (fun members =>
     Store.bind (Store.interpolateConditions (get members "conditions")
                                             context) (fun conditions =>
     Store.alloc (define "conditions" conditions members)))).

(** One rule: at most one object for the conditions, then the new rule. *)
Lemma step_allocates (rule : ref) (h : Store.heap) :
  let members := nth rule h [] in
  let given := get members "conditions" in
  exists extra conditions,
    step rule h
    = (List.length (h ++ extra),
       (h ++ extra) ++ [define "conditions" conditions members]) /\
    (truthy given = false -> conditions = given /\ extra = []) /\
    (truthy given = true ->
     exists copied,
       conditions = VRef (List.length h) /\
       extra = [assign_templates context copied copied] /\
       forall c, given = VRef c -> copied = nth c h []).
Proof.
  intros members given.
  unfold Store.bind at 1. unfold Store.properties. fold members.
  unfold Store.bind. fold given.
  destruct (truthy given) eqn:T.
  - destruct (interpolateConditions_truthy context given h T)
      as (copied & -> & Hc).
    exists [assign_templates context copied copied], (VRef (List.length h)).
    split; [reflexivity|]. split; [discriminate|].
    intros _. now exists copied.
  - rewrite (interpolateConditions_falsy context given h T).
    exists [], given. rewrite app_nil_r.
    split; [reflexivity|]. split; [tauto | discriminate].
Qed.

Lemma map_M_step (policy : list ref) :
  forall (h0 ex : Store.heap) (out : list ref) (h' : Store.heap),
    Forall (fun rule => rule < List.length h0) policy ->
    Store.map_M step policy (h0 ++ ex) = (out, h') ->
    (exists ex', h' = (h0 ++ ex) ++ ex') /\
    List.length out = List.length policy /\
    forall i rule,
      nth_error policy i = Some rule ->
      exists rule',
        nth_error out i = Some rule' /\
        List.length (h0 ++ ex) <= rule' < List.length h' /\
        interpolated_copy context h0 h' rule rule'.
Proof.
  induction policy as [|rule rest IH]; intros h0 ex out h' Hvalid Hrun.
  - injection Hrun as <- <-. split; [exists []; now rewrite app_nil_r|].
    split; [reflexivity|]. intros [|i] r H; discriminate H.
  - inversion Hvalid as [|x l Hrule Hrest]; subst x l.
    cbn [Store.map_M] in Hrun. unfold Store.bind at 1 in Hrun.
    destruct (step_allocates rule (h0 ++ ex))
      as (extra & conditions & Hstep & Hfalsy & Htruthy).
    rewrite Hstep in Hrun. clear Hstep.
    rewrite (app_nth1 h0 ex [] Hrule) in Hfalsy, Htruthy, Hrun.
    set (o := nth rule h0 []) in *.
    set (new := define "conditions" conditions o) in *.
    set (h1 := ((h0 ++ ex) ++ extra) ++ [new]) in *.
    assert (Hh1 : h1 = h0 ++ (ex ++ extra ++ [new])).
    { subst h1. now rewrite <- !app_assoc. }
    unfold Store.bind at 1 in Hrun.
    destruct (Store.map_M step rest h1) as [outs h2] eqn:Hrest_run.
    rewrite Hh1 in Hrest_run.
    destruct (IH h0 _ outs h2 Hrest Hrest_run) as ([ex' Hh2] & Hlen & Hnth).
    rewrite <- Hh1 in Hh2, Hnth.
    cbn [Store.bind Store.ret] in Hrun. injection Hrun as <- <-.
    assert (Hlen1 : List.length h1
                    = S (List.length ((h0 ++ ex) ++ extra))).
    { subst h1. rewrite List.length_app. simpl. lia. }
    split.
    { exists (extra ++ [new] ++ ex'). rewrite Hh2. subst h1.
      now rewrite <- !app_assoc. }
    split; [simpl; now rewrite Hlen|].
    intros [|i] r Hr.
    + injection Hr as <-. exists (List.length ((h0 ++ ex) ++ extra)).
      split; [reflexivity|]. split.
      { rewrite Hh2, (List.length_app h1 ex'), Hlen1, !List.length_app.
        lia. }
      assert (Hnew : nth (List.length ((h0 ++ ex) ++ extra)) h2 [] = new).
      { rewrite Hh2, app_nth1 by lia. subst h1. apply nth_middle. }
      unfold interpolated_copy. fold o. rewrite Hnew. split.
      { intros k Hk. subst new. now apply own_define_other. }
      assert (Hcond : own "conditions" new = Some conditions)
        by (subst new; apply own_define_same).
      destruct (get o "conditions") as [| |b|n|s|c|name] eqn:G;
        try (intros T; destruct (Hfalsy T) as [-> _]; exact Hcond).
      destruct (Htruthy eq_refl) as (copied & -> & -> & Hcopied).
      exists (List.length (h0 ++ ex)).
      split; [exact Hcond|]. split.
      { rewrite Hh2, (List.length_app h1 ex'), Hlen1, !List.length_app.
        simpl. lia. }
      intros Hc Hnd.
      rewrite <- (assign_templates_interpolates context _ Hnd). f_equal.
      rewrite Hh2, app_nth1 by (rewrite Hlen1, !List.length_app; simpl; lia).
      subst h1. rewrite <- app_assoc. simpl.
      rewrite nth_middle.
      rewrite (Hcopied c eq_refl), (app_nth1 h0 ex [] Hc). reflexivity.
    + destruct (Hnth i r Hr) as (rule' & Hout & Hbound & Hcopy).
      exists rule'. split; [exact Hout|]. split; [|exact Hcopy].
      rewrite Hlen1 in Hbound. rewrite List.length_app in Hbound. lia.
Qed.

End PolicyOnTheStore.

(** C9.  [interpolatePolicy] returns as many rules as it is given, in the
    same order.  Each returned rule is a new object whose members other than
    [conditions] are those of the corresponding input rule, and whose
    [conditions] is the interpolation of the input rule's; the objects that
    existed before the call (the input rules and their conditions among
    them) are left as they were. *)
Theorem interpolatePolicy_copies_rules :
  forall (policy : list ref) (context : object) (h : Store.heap)
         (out : list ref) (h' : Store.heap),
    Forall (fun rule => rule < List.length h) policy ->
    Store.interpolatePolicy policy context h = (out, h') ->
    List.length out = List.length policy /\
    (forall r, r < List.length h -> nth_error h' r = nth_error h r) /\
    (forall i rule,
        nth_error policy i = Some rule ->
        exists rule',
          nth_error out i = Some rule' /\
          List.length h <= rule' < List.length h' /\
          interpolated_copy context h h' rule rule').
Proof.
  intros policy context h out h' Hvalid Hrun.
  unfold Store.interpolatePolicy in Hrun.
  rewrite <- (app_nil_r h) in Hrun.
  destruct (map_M_step context policy h [] out h' Hvalid Hrun)
    as ([ex' Hh'] & Hlen & Hnth).
  rewrite app_nil_r in Hh', Hnth.
  split; [exact Hlen|]. split; [|exact Hnth].
  intros r Hr. rewrite Hh'. now apply nth_error_app1.
Qed.

Lemma interpolatePolicy_copies_rules_witness :
  let h : Store.heap :=
    [ [("authorId", VStr "{{userId}}")];
      [("action", VStr "delete"); ("subject", VStr "Post");
       ("conditions", VRef 0); ("reason", VStr "own posts only")];
      [("action", VStr "read"); ("subject", VStr "Post")] ] in
  let context := [("userId", VNum 7)] in
  let h' : Store.heap :=
    h ++ [ [("authorId", VNum 7)];
           [("action", VStr "delete"); ("subject", VStr "Post");
            ("conditions", VRef 3); ("reason", VStr "own posts only")];
           [("action", VStr "read"); ("subject", VStr "Post");
            ("conditions", VUndefined)] ] in
  Store.interpolatePolicy [1; 2] context h = ([4; 5], h') /\
  List.length [4; 5] = List.length [1; 2] /\
  (forall r, r < List.length h -> nth_error h' r = nth_error h r) /\
  (forall i rule,
      nth_error [1; 2] i = Some rule ->
      exists rule',
        nth_error [4; 5] i = Some rule' /\
        List.length h <= rule' < List.length h' /\
        interpolated_copy context h h' rule rule').
Proof.
  intros h context h'. split; [reflexivity|].
  apply (interpolatePolicy_copies_rules [1; 2] context h [4; 5] h').
  - repeat constructor.
  - reflexivity.
Defined.

(* ================================================================== *)
(** * Further properties of the code *)
(* ================================================================== *)

(** ** Extraction: errors, keys, and the default policy *)

Section ExtractionEdges.

Lemma visit_subject_throws (policy : Annotation.t) (p : AppPolicy)
      (subject : string) (e : exception) :
  visit_subject policy p subject = Throw e <->
  e = TypeError /\ inherited subject = true /\ Annotation.actions policy <> [].
Proof.
  unfold visit_subject. destruct (inherited subject).
  - destruct (Annotation.actions policy) as [|a rest].
    + split; [discriminate | intros (_ & _ & H); now contradiction H].
    + split.
      * intros [= <-]. repeat split. discriminate.
      * intros (-> & _). reflexivity.
  - split; [discriminate | intros (_ & H & _); discriminate H].
Qed.

Lemma visit_subjects_throws (policy : Annotation.t) (subjects : list string) :
  forall (p : AppPolicy) (e : exception),
    visit_subjects policy subjects p = Throw e <->
    e = TypeError /\ Annotation.actions policy <> [] /\
    exists subject, In subject subjects /\ inherited subject = true.
Proof.
  induction subjects as [|subject rest IH]; intros p e; simpl.
  - split; [discriminate | intros (_ & _ & s & [] & _)].
  - destruct (visit_subject policy p subject) as [p'|e'] eqn:E.
    + rewrite IH. split.
      * intros (He & Ha & s & Hin & Hs). repeat split; auto.
        exists s. split; [now right | exact Hs].
      * intros (He & Ha & s & [<-|Hin] & Hs).
        -- assert (visit_subject policy p subject = Throw TypeError)
             by (apply visit_subject_throws; auto).
           congruence.
        -- repeat split; auto. now exists s.
    + apply visit_subject_throws in E as (-> & Hs & Ha). split.
      * intros [= <-]. repeat split; auto. exists subject. split; [now left|auto].
      * intros (-> & _). reflexivity.
Qed.

Lemma visit_routes_throws (policies : list Annotation.t) :
  forall (p : AppPolicy) (e : exception),
    visit_routes policies p = Throw e <->
    e = TypeError /\
    exists policy subject,
      In policy policies /\ In subject (Annotation.subjects policy) /\
      inherited subject = true /\ Annotation.actions policy <> [].
Proof.
  induction policies as [|policy rest IH]; intros p e; simpl.
  - split; [discriminate | intros (_ & pol & s & [] & _)].
  - destruct (visit_subjects policy (Annotation.subjects policy) p)
      as [p'|e'] eqn:E.
    + rewrite IH. split.
      * intros (He & pol & s & Hp & Hrest). split; [exact He|].
        exists pol, s. split; [now right | exact Hrest].
      * intros (He & pol & s & [<-|Hp] & Hin & Hs & Ha).
        -- assert (visit_subjects policy (Annotation.subjects policy) p
                   = Throw TypeError).
           { apply visit_subjects_throws. repeat split; auto. now exists s. }
           congruence.
        -- split; [exact He|]. now exists pol, s.
    + apply visit_subjects_throws in E as (-> & Ha & s & Hin & Hs). split.
      * intros [= <-]. split; [reflexivity|]. exists policy, s.
        repeat split; auto.
      * intros (-> & _). reflexivity.
Qed.

(** The keys of the schema after one subject. *)
Lemma visit_subject_keys (policy : Annotation.t) (p p' : AppPolicy)
      (subject : string) :
  visit_subject policy p subject = Normal p' ->
  forall k, own k p' <> None <->
            (k = subject /\ inherited subject = false) \/ own k p <> None.
Proof.
  unfold visit_subject. destruct (inherited subject).
  { destruct (Annotation.actions policy); [|discriminate].
    intros [= <-] k. split; [tauto | intros [[_ H]|H]; [discriminate | exact H]]. }
  intros [= <-] k. rewrite !fold_modify, modify_modify.
  set (F := fun v : SubjectPolicy.t => _).
  set (p0 := match own subject p with
             | Some _ => p
             | None => create subject (SubjectPolicy.make [] []) p
             end).
  assert (H0 : own subject p0 <> None /\
               forall k, k <> subject -> own k p0 = own k p).
  { subst p0. destruct (own subject p) eqn:E.
    - split; [congruence | reflexivity].
    - split; [rewrite own_create_same by exact E; discriminate|].
      intros k' Hk. now apply own_create_other. }
  destruct H0 as [Hs Hother].
  destruct (String.eqb_spec k subject) as [->|Hne].
  - rewrite own_modify_same. split; [intros _; now left|].
    intros _. destruct (own subject p0); [discriminate | contradiction].
  - rewrite own_modify_other, Hother by exact Hne. split; [tauto|].
    intros [[H _]|H]; [contradiction | exact H].
Qed.

Lemma visit_subjects_keys (policy : Annotation.t) (subjects : list string) :
  forall p p',
    visit_subjects policy subjects p = Normal p' ->
    forall k, own k p' <> None <->
              (In k subjects /\ inherited k = false) \/ own k p <> None.
Proof.
  induction subjects as [|subject rest IH]; intros p p'; simpl.
  - intros [= <-] k. tauto.
  - destruct (visit_subject policy p subject) as [p1|] eqn:E; [|discriminate].
    intros H k. rewrite (IH p1 p' H k), (visit_subject_keys _ _ _ _ E k).
    split.
    + intros [[Hin Hk]|[[-> Hk]|Hp]]; auto.
    + intros [[[<-|Hin] Hk]|Hp]; auto.
Qed.

Lemma visit_routes_keys (policies : list Annotation.t) :
  forall p p',
    visit_routes policies p = Normal p' ->
    forall k, own k p' <> None <->
              (exists policy, In policy policies /\
                              In k (Annotation.subjects policy) /\
                              inherited k = false)
              \/ own k p <> None.
Proof.
  induction policies as [|policy rest IH]; intros p p'; simpl.
  - intros [= <-] k. split; [tauto | intros [(pol & [] & _)|H]; exact H].
  - destruct (visit_subjects policy (Annotation.subjects policy) p)
      as [p1|] eqn:E; [|discriminate].
    intros H k. rewrite (IH p1 p' H k), (visit_subjects_keys _ _ _ _ E k).
    split.
    + intros [(pol & Hp & Hin & Hk)|[[Hin Hk]|Hp]].
      * left. exists pol. split; [now right | now split].
      * left. exists policy. split; [now left | now split].
      * now right.
    + intros [(pol & [<-|Hp] & Hin & Hk)|Hp].
      * right. left. now split.
      * left. now exists pol.
      * right. now right.
Qed.

End ExtractionEdges.

(** X1.  A contract in which no annotation names a subject, in particular a
    contract without any policy-bearing node, is extracted to the empty
    schema. *)
Theorem extractAppPolicy_without_subjects :
  forall contract : list (string * Node),
    (forall policy, In policy (routes contract) ->
                    Annotation.subjects policy = []) ->
    extractAppPolicy contract = Normal [].
Proof.
  intros contract H. unfold extractAppPolicy. rewrite traverse_routes.
  induction (routes contract) as [|policy rest IH]; simpl; [reflexivity|].
  rewrite (H policy (or_introl eq_refl)). simpl.
  apply IH. intros pol Hin. apply H. now right.
Qed.

Lemma extractAppPolicy_without_subjects_witness :
  let contract :=
    [ ("policy", Group [ ("getUserPolicy", Group [ ("method", Leaf);
                                                   ("responses", Group []) ]);
                         ("version", Leaf) ]);
      ("health", Route (Annotation.make [] ["read"] None)) ] in
  extractAppPolicy contract = Normal [].
Proof.
  intros contract. apply (extractAppPolicy_without_subjects contract).
  intros policy [<-|[]]. reflexivity.
Defined.

(** X2.  [extractAppPolicy] raises exactly when some annotation that lists
    at least one action names a subject called like a member of
    [Object.prototype]; what it raises is a [TypeError]. *)
Theorem extractAppPolicy_raises_iff :
  forall (contract : list (string * Node)) (e : exception),
    extractAppPolicy contract = Throw e <->
    e = TypeError /\
    exists policy subject,
      In policy (routes contract) /\
      In subject (Annotation.subjects policy) /\
      inherited subject = true /\ Annotation.actions policy <> [].
Proof.
  intros contract e. unfold extractAppPolicy. rewrite traverse_routes.
  apply visit_routes_throws.
Qed.

(** X3.  The schema has exactly one entry for each subject that some
    annotation names (and that is not called like a member of
    [Object.prototype]), also when the annotation lists no action. *)
Theorem extractAppPolicy_keys :
  forall (contract : list (string * Node)) (schema : AppPolicy),
    extractAppPolicy contract = Normal schema ->
    NoDup (map fst schema) /\
    forall subject,
      In subject (map fst schema) <->
      exists policy,
        In policy (routes contract) /\
        In subject (Annotation.subjects policy) /\
        inherited subject = false.
Proof.
  intros contract schema H.
  split; [apply (extractAppPolicy_accounts contract schema H)|].
  intros subject. unfold extractAppPolicy in H. rewrite traverse_routes in H.
  pose proof (visit_routes_keys _ _ _ H subject) as K. simpl in K.
  assert (Hin : In subject (map fst schema) <-> own subject schema <> None).
  { pose proof (own_none schema subject) as N.
    destruct (own subject schema); split; intros; try discriminate;
      try tauto.
    - destruct (in_dec string_dec subject (map fst schema)) as [i|n]; auto.
      apply N in n. discriminate. }
  rewrite Hin, K. split; [intros [E|E]; [exact E | contradiction] | tauto].
Qed.

Lemma extractAppPolicy_keys_witness :
  let contract :=
    [ ("posts", Group [ ("viewPosts", Route node_A);
                        ("deletePost", Route node_B) ]);
      ("drafts", Route (Annotation.make ["Comment"] [] None)) ] in
  exists schema,
    extractAppPolicy contract = Normal schema /\
    map fst schema = ["Post"; "Comment"] /\
    NoDup (map fst schema) /\
    forall subject,
      In subject (map fst schema) <->
      exists policy,
        In policy (routes contract) /\
        In subject (Annotation.subjects policy) /\
        inherited subject = false.
Proof.
  intros contract. eexists. split; [reflexivity|]. split; [reflexivity|].
  apply (extractAppPolicy_keys contract). reflexivity.
Defined.

Lemma own_none_not {V} (o : props V) (k : string) :
  own k o <> None -> In k (map fst o).
Proof.
  intros H. destruct (in_dec string_dec k (map fst o)) as [i|n]; [exact i|].
  apply own_none in n. contradiction.
Qed.

Section DefaultOfExtracted.

(** Adding a rule to the group of its subject. *)
Lemma grouped_cons (f : string -> list PolicyRule.t) (r : PolicyRule.t)
      (k0 : string) (keys : list string) :
  NoDup keys -> In k0 keys ->
  Permutation
    (concat (map (fun k => if k0 =? k then r :: f k else f k) keys))
    (r :: concat (map f keys)).
Proof.
  induction keys as [|k ks IH]; intros Hnd Hin; [contradiction|].
  inversion Hnd as [|x l Hk Hks]; subst x l. simpl.
  destruct (String.eqb_spec k0 k) as [->|Hne].
  - simpl. constructor. apply Permutation_app_head.
    assert (E : map (fun k' => if k =? k' then r :: f k' else f k') ks
                = map f ks).
    { apply map_ext_in. intros k' Hk'.
      destruct (String.eqb_spec k k') as [->|_]; [contradiction | reflexivity]. }
    now rewrite E.
  - destruct Hin as [->|Hin]; [contradiction|].
    eapply Permutation_trans.
    + apply Permutation_app_head. apply IH; assumption.
    + symmetry. apply Permutation_middle.
Qed.

(** Grouping rules by subject, over distinct keys that cover the subjects,
    only reorders them. *)
Lemma grouped_by_subject (D : list PolicyRule.t) (keys : list string) :
  NoDup keys ->
  (forall rule, In rule D -> In (PolicyRule.subject rule) keys) ->
  Permutation (concat (map (fun k => filter (about k) D) keys)) D.
Proof.
  intros Hnd. induction D as [|r D IH]; intros Hcover.
  - simpl. assert (E : concat (map (fun _ : string => @nil PolicyRule.t) keys)
                       = []).
    { clear. induction keys; simpl; auto. }
    rewrite E. constructor.
  - assert (E : map (fun k => filter (about k) (r :: D)) keys
                = map (fun k => if PolicyRule.subject r =? k
                                then r :: filter (about k) D
                                else filter (about k) D) keys).
    { apply map_ext. intros k. simpl. unfold about at 1. reflexivity. }
    rewrite E.
    eapply Permutation_trans.
    + apply grouped_cons; [exact Hnd|]. apply Hcover. now left.
    + constructor. apply IH. intros rule Hin. apply Hcover. now right.
Qed.

End DefaultOfExtracted.

(** X4.  The default policy derived from an extracted schema holds exactly
    the rules the contract declares, one for each route, subject and action,
    grouped by subject: it is a rearrangement of the declared rules, and so
    has as many rules as were declared. *)
Theorem default_policy_of_extracted_schema :
  forall (contract : list (string * Node)) (schema : AppPolicy),
    extractAppPolicy contract = Normal schema ->
    Permutation (createDefaultUserPolicy schema) (declared contract) /\
    List.length (createDefaultUserPolicy schema)
    = List.length (declared contract).
Proof.
  intros contract schema H.
  destruct (extractAppPolicy_accounts contract schema H)
    as (Hnd & Hentries & Hsubjects).
  assert (P : Permutation (createDefaultUserPolicy schema) (declared contract)).
  { unfold createDefaultUserPolicy. rewrite createDefaultUserPolicy_from.
    simpl.
    assert (E : map (fun e : string * SubjectPolicy.t =>
                       SubjectPolicy.permissions (snd e)) schema
                = map (fun k => filter (about k) (declared contract))
                      (map fst schema)).
    { rewrite map_map. apply map_ext_in. intros [k entry] Hin. simpl.
      apply (Hentries k entry). now apply in_own. }
    rewrite E. apply grouped_by_subject; [exact Hnd|].
    intros rule Hin. apply own_none_not. now apply Hsubjects. }
  split; [exact P | now apply Permutation_length].
Qed.

Lemma default_policy_of_extracted_schema_witness :
  let own_posts := Some [("authorId", VStr "{{userId}}")] in
  let plain := Group [ ("method", Leaf); ("path", Leaf);
                       ("responses", Group [ ("200", Group []) ]) ] in
  let appContract :=
    [ ("posts",
       Group [ ("viewPosts", Route (Annotation.make ["Post"] ["read"] None));
               ("createPost", Route (Annotation.make ["Post"] ["create"] None));
               ("deletePost",
                Route (Annotation.make ["Post"] ["delete"] own_posts)) ]);
      ("policy",
       Group [ ("getUserPolicy", plain); ("updateUserPolicy", plain);
               ("getAppPolicySchema", plain) ]) ] in
  let schema :=
    [ ("Post",
       SubjectPolicy.make
         ["read"; "create"; "delete"]
         [ PolicyRule.make "read" "Post" None;
           PolicyRule.make "create" "Post" None;
           PolicyRule.make "delete" "Post" own_posts ]) ] in
  extractAppPolicy appContract = Normal schema /\
  Permutation (createDefaultUserPolicy schema) (declared appContract) /\
  List.length (createDefaultUserPolicy schema)
  = List.length (declared appContract).
Proof.
  intros own_posts plain appContract schema. split; [reflexivity|].
  apply (default_policy_of_extracted_schema appContract schema).
  reflexivity.
Defined.

(** ** Interpolation: the copy and the context *)

Section InterpolationMore.

Lemma own_interpolated (context c : object) (k : string) :
  own k (map (interpolate_entry context) c)
  = option_map (substitute context) (own k c).
Proof.
  induction c as [|[k' v] c IH]; simpl; [reflexivity|].
  destruct (k' =? k)%string; [reflexivity | exact IH].
Qed.

Lemma template_name_inj (a b : string) :
  ("{{" ++ a ++ "}}")%string = ("{{" ++ b ++ "}}")%string -> a = b.
Proof.
  intros H. rewrite <- (slice_inner a), <- (slice_inner b). now rewrite H.
Qed.

End InterpolationMore.

(** X5.  On the store, [interpolateConditions] never writes to an object
    that existed before the call.  A falsy argument is returned as it is and
    nothing is allocated; a conditions object is left untouched and the
    result is a new object that holds its interpolation. *)
Theorem store_interpolateConditions_fresh_copy :
  forall (conditions : value) (context : object) (h h' : Store.heap)
         (result : value),
    Store.interpolateConditions conditions context h = (result, h') ->
    (forall r, r < List.length h -> nth_error h' r = nth_error h r) /\
    (truthy conditions = false -> result = conditions /\ h' = h) /\
    (forall c, conditions = VRef c ->
               NoDup (map fst (nth c h [])) ->
               result = VRef (List.length h) /\
               List.length h' = S (List.length h) /\
               interpolateConditions (Some (nth c h [])) context
               = Some (nth (List.length h) h' [])).
Proof.
  intros conditions context h h' result Hrun.
  destruct (truthy conditions) eqn:T.
  - destruct (interpolateConditions_truthy context conditions h T)
      as (copied & Heq & Hc).
    rewrite Heq in Hrun. injection Hrun as <- <-.
    split; [intros r Hr; now apply nth_error_app1|].
    split; [discriminate|].
    intros c -> Hnd. split; [reflexivity|].
    split; [rewrite List.length_app; simpl; lia|].
    rewrite nth_last, (Hc c eq_refl).
    symmetry. now apply assign_templates_interpolates.
  - rewrite (interpolateConditions_falsy context conditions h T) in Hrun.
    injection Hrun as <- <-.
    split; [reflexivity|]. split; [tauto|].
    intros c ->. discriminate T.
Qed.

Lemma store_interpolateConditions_fresh_copy_witness :
  let h : Store.heap :=
    [ [("authorId", VStr "{{userId}}"); ("meta", VRef 1)];
      [("owner", VStr "{{userId}}")] ] in
  let context := [("userId", VNum 7)] in
  let h' := h ++ [ [("authorId", VNum 7); ("meta", VRef 1)] ] in
  Store.interpolateConditions (VRef 0) context h = (VRef 2, h') /\
  (forall r, r < List.length h -> nth_error h' r = nth_error h r) /\
  (truthy (VRef 0) = false -> VRef 2 = VRef 0 /\ h' = h) /\
  (forall c, VRef 0 = VRef c ->
             NoDup (map fst (nth c h [])) ->
             VRef 2 = VRef (List.length h) /\
             List.length h' = S (List.length h) /\
             interpolateConditions (Some (nth c h [])) context
             = Some (nth (List.length h) h' [])).
Proof.
  intros h context h'. split; [reflexivity|].
  apply (store_interpolateConditions_fresh_copy (VRef 0) context h h' (VRef 2)).
  reflexivity.
Defined.

(** X6.  The result of [interpolateConditions] depends on the context only
    through the names its templates mention: two contexts that agree on them
    give the same conditions. *)
Theorem interpolateConditions_uses_named_keys_only :
  forall (c context1 context2 : object),
    (forall key name,
        In (key, VStr ("{{" ++ name ++ "}}")%string) c ->
        get context1 name = get context2 name) ->
    interpolateConditions (Some c) context1
    = interpolateConditions (Some c) context2.
Proof.
  intros c context1 context2 H. simpl. f_equal.
  apply map_ext_in. intros [key v] Hin. unfold interpolate_entry. f_equal.
  destruct (is_template v) eqn:T.
  - apply is_template_inv in T as [name ->].
    rewrite !substitute_template. now apply (H key).
  - now rewrite !substitute_other.
Qed.

Lemma interpolateConditions_uses_named_keys_only_witness :
  let c := [("authorId", VStr "{{userId}}"); ("status", VStr "draft")] in
  let context1 := [("userId", VNum 7)] in
  let context2 := [("role", VStr "admin"); ("userId", VNum 7)] in
  interpolateConditions (Some c) context1
  = interpolateConditions (Some c) context2.
Proof.
  intros c context1 context2.
  apply (interpolateConditions_uses_named_keys_only c context1 context2).
  intros key name [Hin|[Hin|[]]]; injection Hin as _ Hname.
  - assert (N : "userId"%string = name).
    { apply template_name_inj. simpl. now rewrite <- Hname. }
    subst name. reflexivity.
  - discriminate Hname.
Defined.

(** X7.  A conditions object without templates is interpolated to an equal
    copy, whatever the context. *)
Theorem interpolateConditions_without_templates :
  forall (c context : object),
    (forall key v, In (key, v) c -> is_template v = false) ->
    interpolateConditions (Some c) context = Some c.
Proof.
  intros c context H. unfold interpolateConditions. apply f_equal.
  transitivity (map (fun e : string * value => e) c); [|apply map_id].
  apply map_ext_in. intros [key v] Hin. unfold interpolate_entry.
  now rewrite (substitute_other context v (H key v Hin)).
Qed.

Lemma interpolateConditions_without_templates_witness :
  let c := [("authorId", VNum 9); ("title", VStr "{draft}"); ("tags", VRef 3)] in
  interpolateConditions (Some c) [("userId", VNum 7)] = Some c.
Proof.
  intros c. apply (interpolateConditions_without_templates c).
  intros key v [H|[H|[H|[]]]]; injection H as _ <-; reflexivity.
Defined.

(** ** [withPolicy] *)

Section WithPolicy.

Local Open Scope string_scope.

Lemma append_nonempty_l (a b : string) : a <> "" -> a ++ b <> "".
Proof. destruct a; [congruence | discriminate]. Qed.

Lemma append_nonempty_r (a b : string) : b <> "" -> a ++ b <> "".
Proof. destruct a; [now simpl | discriminate]. Qed.

Lemma or_else_nonempty (a : option string) (b : string) :
  b <> "" -> or_else a b <> "".
Proof.
  intros Hb. unfold or_else. destruct a as [s|]; [|exact Hb].
  destruct (String.eqb_spec s ""); [exact Hb | assumption].
Qed.

Lemma or_else_keeps (a : option string) (b s : string) :
  a = Some s -> s <> "" -> or_else a b = s.
Proof.
  intros -> Hs. unfold or_else.
  destruct (String.eqb_spec s ""); [contradiction | reflexivity].
Qed.

Lemma policyDescription_nonempty (config : PolicyConfig.t) :
  policyDescription config <> "".
Proof.
  unfold policyDescription.
  destruct (PolicyConfig.inverted config); cbn [negb].
  - assert (H : forall start action subject,
               start ++ ". Explicitly forbids '" ++ action ++ "' on '"
                     ++ subject ++ "'" <> "")
      by (intros; apply append_nonempty_r; discriminate).
    destruct (PolicyConfig.reason config) as [r|]; [|apply H].
    destruct (r =? ""); [apply H | apply append_nonempty_l, H].
  - assert (H : forall start action subject,
               start ++ ". Requires '" ++ action ++ "' permission on '"
                     ++ subject ++ "' subject" <> "")
      by (intros; apply append_nonempty_r; discriminate).
    destruct (PolicyConfig.conditions config);
      destruct (PolicyConfig.fields config) as [[|f fs]|];
      first [ apply H
            | apply append_nonempty_l; apply H
            | apply append_nonempty_l, append_nonempty_l; apply H ].
Qed.

End WithPolicy.

(** X8.  A route wrapped by [withPolicy] always has a non-empty description
    and a non-empty summary; a non-empty description or summary of the route
    itself is kept, and the method, the path and the other members are
    those of the route. *)
Theorem withPolicy_describes_route :
  forall (config : PolicyConfig.t) (route : ContractRoute.t),
    let wrapped := withPolicy config route in
    PolicyRoute.description wrapped <> ""%string /\
    PolicyRoute.summary wrapped <> ""%string /\
    (forall d, ContractRoute.description route = Some d -> d <> ""%string ->
               PolicyRoute.description wrapped = d) /\
    (forall s, ContractRoute.summary route = Some s -> s <> ""%string ->
               PolicyRoute.summary wrapped = s) /\
    PolicyRoute.method wrapped = ContractRoute.method route /\
    PolicyRoute.path wrapped = ContractRoute.path route /\
    PolicyRoute.rest wrapped = ContractRoute.rest route.
Proof.
  intros config route wrapped. subst wrapped. unfold withPolicy. simpl.
  split; [apply or_else_nonempty, policyDescription_nonempty|].
  split.
  { apply or_else_nonempty, or_else_nonempty.
    unfold verb. destruct (PolicyConfig.inverted config); discriminate. }
  split; [intros d Hd Hne; now apply or_else_keeps|].
  split; [intros s Hs Hne; now apply or_else_keeps|].
  repeat split.
Qed.

(** ** Generating the application rules *)

Lemma RouteTree_ind' (P : RouteTree -> Prop) :
  P Plain ->
  (forall policy, P (Guarded policy)) ->
  (forall entries, Forall (fun e => P (snd e)) entries -> P (Router entries)) ->
  forall value, P value.
Proof.
  intros HP HG HR. fix IH 1.
  intros [|policy|entries]; [exact HP | apply HG | apply HR].
  induction entries as [|[k v] rest IHrest]; constructor;
    [apply IH | exact IHrest].
Qed.

Section Generation.

Lemma collect_router (entries : list (string * RouteTree))
      (rules : list AppRawRule.t) :
  collect (Router entries) rules = collect_all entries rules.
Proof.
  revert rules. induction entries as [|[k v] rest IH]; intros rules;
    [reflexivity|].
  simpl. apply IH.
Qed.

Lemma policies_of_router (entries : list (string * RouteTree)) :
  policies_of (Router entries) = policies entries.
Proof.
  induction entries as [|[k v] rest IH]; [reflexivity|].
  simpl in *. now rewrite IH.
Qed.

Lemma collect_policies (value : RouteTree) :
  forall rules,
    collect value rules = rules ++ map pushed (policies_of value).
Proof.
  induction value as [|policy|entries IH] using RouteTree_ind'; intros rules.
  - simpl. now rewrite app_nil_r.
  - reflexivity.
  - rewrite collect_router, policies_of_router. revert rules.
    induction IH as [|[k v] rest Hv _ IHrest]; intros rules; simpl.
    + now rewrite app_nil_r.
    + simpl in Hv. rewrite IHrest, Hv, map_app, app_assoc. reflexivity.
Qed.

Lemma collect_all_policies (obj : list (string * RouteTree)) :
  forall rules,
    collect_all obj rules = rules ++ map pushed (policies obj).
Proof.
  induction obj as [|[k v] rest IH]; intros rules; simpl.
  - now rewrite app_nil_r.
  - rewrite IH, collect_policies, map_app, app_assoc. reflexivity.
Qed.

Lemma extractAbilityRules_pushed (contract : list (string * RouteTree)) :
  extractAbilityRules contract = map pushed (policies contract).
Proof.
  unfold extractAbilityRules. now rewrite collect_all_policies.
Qed.

Lemma same_name_eq (a b : option string) : same_name a b = true <-> a = b.
Proof.
  destruct a as [x|], b as [y|]; simpl; try (split; congruence).
  rewrite String.eqb_eq. split; congruence.
Qed.

Lemma seen_in (name : option string) (set : list (option string)) :
  existsb (same_name name) set = true <-> In name set.
Proof.
  rewrite existsb_exists. split.
  - intros (x & Hx & E). apply same_name_eq in E. now subst.
  - intros H. exists name. split; [exact H | now apply same_name_eq].
Qed.

Lemma unique_from (names set : list (option string)) :
  NoDup set ->
  let result :=
    fold_left
      (fun set name =>
         if existsb (same_name name) set then set else set ++ [name])
      names set in
  NoDup result /\ forall name, In name result <-> In name set \/ In name names.
Proof.
  revert set. induction names as [|n rest IH]; intros set Hnd; simpl.
  - split; [exact Hnd | tauto].
  - destruct (existsb (same_name n) set) eqn:E.
    + destruct (IH set Hnd) as [H1 H2]. split; [exact H1|].
      intros name. rewrite (H2 name). apply seen_in in E.
      split; [tauto | intros [H|[<-|H]]; tauto].
    + assert (Hn : ~ In n set).
      { intros Hin. apply seen_in in Hin. congruence. }
      assert (Hnd' : NoDup (set ++ [n])).
      { apply NoDup_app; [exact Hnd | constructor; [tauto | constructor] |].
        intros x Hx [<-|[]]. contradiction. }
      destruct (IH (set ++ [n]) Hnd') as [H1 H2]. split; [exact H1|].
      intros name. rewrite (H2 name), in_app_iff. simpl. tauto.
Qed.

Lemma unique_spec (names : list (option string)) :
  NoDup (unique names) /\ forall name, In name (unique names) <-> In name names.
Proof.
  destruct (unique_from names [] (NoDup_nil _)) as [H1 H2].
  split; [exact H1|]. intros name. rewrite (H2 name). simpl. tauto.
Qed.

End Generation.

(** X9.  [extractAbilityRules] returns one rule for each policy-bearing
    route, in depth-first order, holding the action, the subject and the
    conditions of the route's policy and nothing else: the fields, the
    inverted flag and the reason of a policy never reach the extracted
    rules. *)
Theorem extractAbilityRules_keeps_three_members :
  forall contract : list (string * RouteTree),
    List.length (extractAbilityRules contract)
    = List.length (policies contract) /\
    (forall i policy,
        nth_error (policies contract) i = Some policy ->
        exists rule,
          nth_error (extractAbilityRules contract) i = Some rule /\
          AppRawRule.action rule = AppRawRule.action policy /\
          AppRawRule.subject rule = AppRawRule.subject policy /\
          AppRawRule.conditions rule = AppRawRule.conditions policy) /\
    (forall rule,
        In rule (extractAbilityRules contract) ->
        AppRawRule.fields rule = None /\
        AppRawRule.inverted rule = false /\
        AppRawRule.reason rule = None).
Proof.
  intros contract. rewrite extractAbilityRules_pushed.
  split; [apply length_map|]. split.
  - intros i policy H. exists (pushed policy).
    rewrite nth_error_map, H. repeat split.
  - intros rule Hin. apply in_map_iff in Hin as (policy & <- & _).
    repeat split.
Qed.

(** X10.  For a contract whose policy-bearing routes were made by
    [withPolicy], the extracted rules are the action, subject and conditions
    of the configurations, in order; whether a configuration was inverted or
    restricted to fields cannot be told from them. *)
Theorem extractAbilityRules_of_withPolicy :
  forall (contract : list (string * RouteTree))
         (made : list (PolicyConfig.t * ContractRoute.t)),
    policies contract
    = map (fun cr => PolicyRoute.policy (withPolicy (fst cr) (snd cr))) made ->
    extractAbilityRules contract
    = map (fun cr =>
             AppRawRule.make (Some (PolicyConfig.actions (fst cr)))
                             (Some (PolicyConfig.subjects (fst cr)))
                             (PolicyConfig.conditions (fst cr))
                             None false None)
          made.
Proof.
  intros contract made H.
  rewrite extractAbilityRules_pushed, H, map_map. reflexivity.
Qed.

Lemma extractAbilityRules_of_withPolicy_witness :
  let route method path :=
    ContractRoute.make method path None None [("responses", VRef 0)] in
  let view :=
    PolicyConfig.make "read" "Post" None None false None
                      (Some "Get all posts") in
  let remove :=
    PolicyConfig.make "delete" "Post"
                      (Some [("authorId", VStr "{{userId}}")])
                      None false None
                      (Some "Delete a post (only own posts)") in
  let lock :=
    PolicyConfig.make "update" "Post" None (Some ["title"]) true
                      (Some "frozen") None in
  let made :=
    [ (view, route "GET" "/posts"); (remove, route "DELETE" "/posts/:id");
      (lock, route "PUT" "/posts/:id") ] in
  let node cr := Guarded (PolicyRoute.policy (withPolicy (fst cr) (snd cr))) in
  let contract :=
    [ ("posts", Router [ ("viewPosts", node (view, route "GET" "/posts"));
                         ("deletePost",
                          node (remove, route "DELETE" "/posts/:id"));
                         ("lockPost", node (lock, route "PUT" "/posts/:id")) ]);
      ("policy", Router [ ("getUserPolicy", Router [ ("method", Plain) ]) ]) ] in
  extractAbilityRules contract
  = [ AppRawRule.make (Some "read") (Some "Post") None None false None;
      AppRawRule.make (Some "delete") (Some "Post")
                      (Some [("authorId", VStr "{{userId}}")]) None false None;
      AppRawRule.make (Some "update") (Some "Post") None None false None ].
Proof.
  intros route view remove lock made node contract.
  apply (extractAbilityRules_of_withPolicy contract made). reflexivity.
Defined.

(** X11.  In the value [generateAppRulesJSON] writes, [subjects] lists each
    subject of the extracted rules exactly once and [actions] each action
    exactly once, and [rules] are the extracted rules. *)
Theorem generateAppRulesJSON_lists_names_once :
  forall appContract : list (string * RouteTree),
    let json := generateAppRulesJSON appContract in
    RulesJSON.rules json = extractAbilityRules appContract /\
    NoDup (RulesJSON.subjects json) /\
    NoDup (RulesJSON.actions json) /\
    (forall subject,
        In subject (RulesJSON.subjects json) <->
        exists rule, In rule (RulesJSON.rules json) /\
                     AppRawRule.subject rule = subject) /\
    (forall action,
        In action (RulesJSON.actions json) <->
        exists rule, In rule (RulesJSON.rules json) /\
                     AppRawRule.action rule = action).
Proof.
  intros appContract json. subst json. unfold generateAppRulesJSON. simpl.
  split; [reflexivity|].
  destruct (unique_spec (map AppRawRule.subject
                             (extractAbilityRules appContract))) as [S1 S2].
  destruct (unique_spec (map AppRawRule.action
                             (extractAbilityRules appContract))) as [A1 A2].
  split; [exact S1|]. split; [exact A1|]. split.
  - intros subject. rewrite S2, in_map_iff.
    split; intros (rule & H1 & H2); exists rule; tauto.
  - intros action. rewrite A2, in_map_iff.
    split; intros (rule & H1 & H2); exists rule; tauto.
Qed.

(** X12.  An ability created from the generated rules registers one rule
    for each policy-bearing route, and every one of them is a grant without
    field restriction, also for a route whose policy was inverted or
    restricted to fields. *)
Theorem default_ability_only_grants :
  forall (appContract : list (string * RouteTree)) (context : object),
  exists ability,
    createAppAbility (RulesJSON.rules (generateAppRulesJSON appContract))
                     context
    = Normal ability /\
    List.length ability = List.length (policies appContract) /\
    forall raw, In raw ability ->
                AbilityBuilder.inverted raw = false /\
                AbilityBuilder.fields raw = None.
Proof.
  intros appContract context.
  exists (map (registered context) (extractAbilityRules appContract)).
  split; [apply createAppAbility_registered|].
  rewrite extractAbilityRules_pushed.
  split; [now rewrite !length_map|].
  intros raw Hin. apply in_map_iff in Hin as (rule & <- & Hin).
  apply in_map_iff in Hin as (policy & <- & _).
  split; reflexivity.
Qed.

(** ** The first front end: deleting posts, toggling permissions *)

Section FirstFrontEnd.

Import PolicyApp.

Lemma find_createAbility (policy : list PolicyRule.t) (userId : Z) :
  find deletes_posts (createAbility policy userId)
  = option_map
      (fun rule =>
         PolicyRule.make (PolicyRule.action rule) (PolicyRule.subject rule)
           (interpolateConditions (PolicyRule.conditions rule)
                                  [("userId", VNum userId)]))
      (find deletes_posts policy).
Proof.
  induction policy as [|rule rest IH]; [reflexivity|].
  simpl. unfold deletes_posts at 1 3. simpl.
  destruct ((PolicyRule.action rule =? "delete")
            && (PolicyRule.subject rule =? "Post"))%string;
    [reflexivity | exact IH].
Qed.

Lemma canDeletePost_first_rule (rules : list PolicyRule.t) (post : Post.t)
      (userId : Z) (deleteRule : PolicyRule.t) (conditions : object) :
  find deletes_posts rules = Some deleteRule ->
  PolicyRule.conditions deleteRule = Some conditions ->
  canDeletePost true rules post userId
  = if strict_equals (get conditions "authorId") VUndefined then true
    else (Post.authorId post =? userId)%Z.
Proof.
  intros Hfind Hc. unfold canDeletePost. simpl. rewrite Hfind, Hc.
  now destruct (strict_equals _ _).
Qed.


Lemma existsb_filter_out {A} (f : A -> bool) (l : list A) :
  existsb f (filter (fun a => negb (f a)) l) = false.
Proof.
  induction l as [|a l IH]; [reflexivity|]. simpl.
  destruct (f a) eqn:E; simpl; [exact IH | now rewrite E].
Qed.

End FirstFrontEnd.

(** X13.  When the ability allows deleting posts and the first rule about
    deleting posts has a condition on [authorId], [canDeletePost] compares
    the author of the post with the current user; the value the condition
    holds plays no part.  Without the coarse permission the answer is
    false. *)
Theorem canDeletePost_compares_author_with_user :
  forall (can : bool) (rules : list PolicyRule.t) (post : Post.t) (userId : Z)
         (deleteRule : PolicyRule.t) (conditions : object),
    find PolicyApp.deletes_posts rules = Some deleteRule ->
    PolicyRule.conditions deleteRule = Some conditions ->
    get conditions "authorId" <> VUndefined ->
    PolicyApp.canDeletePost can rules post userId
    = can && (Post.authorId post =? userId)%Z.
Proof.
  intros can rules post userId deleteRule conditions Hfind Hc Hdef.
  destruct can; [|reflexivity].
  rewrite (canDeletePost_first_rule rules post userId _ _ Hfind Hc).
  destruct (strict_equals (get conditions "authorId") VUndefined) eqn:E;
    [|reflexivity].
  now apply strict_equals_undefined in E.
Qed.

Lemma canDeletePost_compares_author_with_user_witness :
  let rules :=
    [ PolicyRule.make "read" "Post" None;
      PolicyRule.make "delete" "Post" (Some [("authorId", VNum 99)]);
      PolicyRule.make "delete" "Post" None ] in
  let post := Post.make 5 "First Post" "text" 1 in
  PolicyApp.canDeletePost true rules post 1 = true /\
  PolicyApp.canDeletePost true rules post 1
  = true && (Post.authorId post =? 1)%Z.
Proof.
  intros rules post. split; [reflexivity|].
  apply (canDeletePost_compares_author_with_user true rules post 1
           (PolicyRule.make "delete" "Post" (Some [("authorId", VNum 99)]))
           [("authorId", VNum 99)]).
  - reflexivity.
  - reflexivity.
  - discriminate.
Defined.

(** X14.  With the rules [createAbility] makes of a policy whose first rule
    about deleting posts has the condition [authorId: "{{userId}}"],
    [canDeletePost] allows exactly the posts of the current user. *)
Theorem canDeletePost_own_posts :
  forall (policy : list PolicyRule.t) (userId : Z) (post : Post.t)
         (rule : PolicyRule.t) (c : object),
    find PolicyApp.deletes_posts policy = Some rule ->
    PolicyRule.conditions rule = Some c ->
    own "authorId" c = Some (VStr "{{userId}}") ->
    PolicyApp.canDeletePost true (PolicyApp.createAbility policy userId)
                            post userId
    = (Post.authorId post =? userId)%Z.
Proof.
  intros policy userId post rule c Hfind Hc Hown.
  pose proof (find_createAbility policy userId) as F. rewrite Hfind in F.
  simpl in F.
  rewrite (canDeletePost_first_rule _ post userId _
             (map (interpolate_entry [("userId", VNum userId)]) c) F).
  - unfold get at 1. rewrite own_interpolated, Hown. cbn [option_map].
    change (VStr "{{userId}}") with (VStr ("{{" ++ "userId" ++ "}}")%string).
    rewrite substitute_template, get_single, String.eqb_refl. reflexivity.
  - simpl. now rewrite Hc.
Qed.

Lemma canDeletePost_own_posts_witness :
  let policy :=
    [ PolicyRule.make "read" "Post" None;
      PolicyRule.make "delete" "Post"
                      (Some [("authorId", VStr "{{userId}}")]) ] in
  PolicyApp.canDeletePost true (PolicyApp.createAbility policy 1)
                          (Post.make 2 "Second Post" "text" 2) 1
  = (2 =? 1)%Z.
Proof.
  intros policy.
  apply (canDeletePost_own_posts policy 1 (Post.make 2 "Second Post" "text" 2)
           (PolicyRule.make "delete" "Post"
                            (Some [("authorId", VStr "{{userId}}")]))
           [("authorId", VStr "{{userId}}")]); reflexivity.
Defined.

(** X15.  When the [authorId] condition of that rule is a template the
    context [{userId}] cannot resolve, [createAbility] leaves [authorId]
    undefined and [canDeletePost] allows every post (given the coarse
    permission): the rule acts as if it had no condition. *)
Theorem canDeletePost_unresolved_template_allows :
  forall (policy : list PolicyRule.t) (userId : Z) (post : Post.t)
         (rule : PolicyRule.t) (c : object) (name : string),
    find PolicyApp.deletes_posts policy = Some rule ->
    PolicyRule.conditions rule = Some c ->
    own "authorId" c = Some (VStr ("{{" ++ name ++ "}}")%string) ->
    has_property [("userId", VNum userId)] name = false ->
    PolicyApp.canDeletePost true (PolicyApp.createAbility policy userId)
                            post userId
    = true.
Proof.
  intros policy userId post rule c name Hfind Hc Hown Hname.
  pose proof (find_createAbility policy userId) as F. rewrite Hfind in F.
  simpl in F.
  rewrite (canDeletePost_first_rule _ post userId _
             (map (interpolate_entry [("userId", VNum userId)]) c) F).
  - unfold get at 1. rewrite own_interpolated, Hown. cbn [option_map].
    rewrite substitute_template.
    assert (G : get [("userId", VNum userId)] name = VUndefined).
    { unfold has_property in Hname. unfold get.
      destruct (own name [("userId", VNum userId)]); [discriminate|].
      now rewrite Hname. }
    now rewrite G.
  - simpl. now rewrite Hc.
Qed.

Lemma canDeletePost_unresolved_template_allows_witness :
  let policy :=
    [ PolicyRule.make "delete" "Post"
                      (Some [("authorId", VStr "{{ownerId}}")]) ] in
  PolicyApp.canDeletePost true (PolicyApp.createAbility policy 1)
                          (Post.make 2 "Second Post" "text" 2) 1
  = true.
Proof.
  intros policy.
  apply (canDeletePost_unresolved_template_allows policy 1
           (Post.make 2 "Second Post" "text" 2)
           (PolicyRule.make "delete" "Post"
                            (Some [("authorId", VStr "{{ownerId}}")]))
           [("authorId", VStr "{{ownerId}}")] "ownerId"); reflexivity.
Defined.

(** X16.  Toggling a permission the user has removes every rule of the
    policy for that subject and action, conditional or not, and keeps all
    other rules in their order; the schema plays no part. *)
Theorem togglePermission_revokes :
  forall (userPolicy : list PolicyRule.t) (appPolicy : AppPolicy)
         (subject action : string),
    existsb (PolicyApp.concerns subject action) userPolicy = true ->
    exists newPolicy,
      PolicyApp.togglePermission userPolicy appPolicy subject action
      = Normal (Some newPolicy) /\
      newPolicy
      = filter (fun rule => negb (PolicyApp.concerns subject action rule))
               userPolicy /\
      existsb (PolicyApp.concerns subject action) newPolicy = false /\
      (forall rule,
          In rule newPolicy <->
          In rule userPolicy /\
          PolicyApp.concerns subject action rule = false).
Proof.
  intros userPolicy appPolicy subject action H.
  eexists. unfold PolicyApp.togglePermission. rewrite H.
  split; [reflexivity|]. split; [reflexivity|].
  split; [apply existsb_filter_out|].
  intros rule. rewrite filter_In.
  destruct (PolicyApp.concerns subject action rule); simpl;
    intuition congruence.
Qed.

Lemma togglePermission_revokes_witness :
  let userPolicy :=
    [ PolicyRule.make "read" "Post" None;
      PolicyRule.make "delete" "Post" (Some [("authorId", VStr "{{userId}}")]);
      PolicyRule.make "create" "Post" None;
      PolicyRule.make "delete" "Post" None ] in
  PolicyApp.togglePermission userPolicy [] "Post" "delete"
  = Normal (Some [ PolicyRule.make "read" "Post" None;
                   PolicyRule.make "create" "Post" None ]) /\
  exists newPolicy,
    PolicyApp.togglePermission userPolicy [] "Post" "delete"
    = Normal (Some newPolicy) /\
    newPolicy
    = filter (fun rule => negb (PolicyApp.concerns "Post" "delete" rule))
             userPolicy /\
    existsb (PolicyApp.concerns "Post" "delete") newPolicy = false /\
    (forall rule,
        In rule newPolicy <->
        In rule userPolicy /\
        PolicyApp.concerns "Post" "delete" rule = false).
Proof.
  intros userPolicy. split; [reflexivity|].
  apply (togglePermission_revokes userPolicy [] "Post" "delete").
  reflexivity.
Defined.



(** ** The second front end: what the editor sends *)

Section SecondFrontEnd.

Lemma cleanRules_plain (newRules : list AppRawRule.t) (rule : AppRawRule.t) :
  In rule (RulesApp.cleanRules newRules) ->
  AppRawRule.fields rule = None /\
  AppRawRule.inverted rule = false /\
  AppRawRule.reason rule = None.
Proof.
  unfold RulesApp.cleanRules. intros H.
  apply in_map_iff in H as (r & <- & _). repeat split.
Qed.

Lemma cleanRules_keeps (newRules : list AppRawRule.t) (rule : AppRawRule.t) :
  In rule newRules ->
  exists plain,
    In plain (RulesApp.cleanRules newRules) /\
    AppRawRule.action plain = AppRawRule.action rule /\
    AppRawRule.subject plain = AppRawRule.subject rule /\
    AppRawRule.conditions plain = AppRawRule.conditions rule.
Proof.
  intros H. eexists. split.
  - unfold RulesApp.cleanRules. apply in_map_iff. exists rule.
    split; [reflexivity | exact H].
  - repeat split.
Qed.

End SecondFrontEnd.

(** X18.  Whatever the editor of the second front end sends after a toggle
    holds plain rules only: no rule sent has fields, an inverted flag or a
    reason.  When the permission is withdrawn, no rule sent concerns the
    toggled subject and action, and every other rule of the user is sent
    with its action, subject and conditions, so that a rule that was a
    denial is sent as a grant. *)
Theorem togglePermission_sends_plain_rules :
  forall (hasPermission : bool) (userRules : list AppRawRule.t)
         (appSchema : props SchemaEntry.t) (subject action : string)
         (sent : list AppRawRule.t),
    RulesApp.togglePermission hasPermission userRules appSchema subject action
    = Normal (Some sent) ->
    (forall rule, In rule sent ->
                  AppRawRule.fields rule = None /\
                  AppRawRule.inverted rule = false /\
                  AppRawRule.reason rule = None) /\
    (hasPermission = true ->
     (forall rule, In rule sent ->
                   RulesApp.named subject (AppRawRule.subject rule)
                   && RulesApp.named action (AppRawRule.action rule) = false) /\
     (forall rule,
         In rule userRules ->
         RulesApp.named subject (AppRawRule.subject rule)
         && RulesApp.named action (AppRawRule.action rule) = false ->
         exists plain,
           In plain sent /\
           AppRawRule.action plain = AppRawRule.action rule /\
           AppRawRule.subject plain = AppRawRule.subject rule /\
           AppRawRule.conditions plain = AppRawRule.conditions rule)).
Proof.
  intros hasPermission userRules appSchema subject action sent H.
  unfold RulesApp.togglePermission in H. destruct hasPermission.
  - injection H as <-. split; [intros rule; apply cleanRules_plain|].
    intros _. split.
    + intros rule Hin. unfold RulesApp.cleanRules in Hin.
      apply in_map_iff in Hin as (r & <- & Hr).
      apply filter_In in Hr as [_ Hr]. simpl.
      now apply negb_true_iff in Hr.
    + intros rule Hin Hpair. apply cleanRules_keeps.
      apply filter_In. split; [exact Hin | now rewrite Hpair].
  - split; [|discriminate].
    destruct (own subject appSchema) as [config|].
    + destruct (find _ (SchemaEntry.permissions config)); [|discriminate].
      injection H as <-. intros rule. apply cleanRules_plain.
    + destruct (inherited subject); discriminate.
Qed.

Lemma togglePermission_sends_plain_rules_witness :
  let userRules :=
    [ AppRawRule.make (Some "read") (Some "Post") None None false None;
      AppRawRule.make (Some "delete") (Some "Post")
                      (Some [("authorId", VNum 9)]) None true
                      (Some "not the posts of user 9") ] in
  let sent :=
    [ AppRawRule.make (Some "delete") (Some "Post")
                      (Some [("authorId", VNum 9)]) None false None ] in
  RulesApp.togglePermission true userRules [] "Post" "read"
  = Normal (Some sent) /\
  (forall rule, In rule sent ->
                AppRawRule.fields rule = None /\
                AppRawRule.inverted rule = false /\
                AppRawRule.reason rule = None).
Proof.
  intros userRules sent. split; [reflexivity|].
  apply (togglePermission_sends_plain_rules true userRules [] "Post" "read"
                                            sent eq_refl).
Defined.

(** ** Extraction: the order of the actions *)

Section ActionsOrder.

Local Abbreviation seen_step :=
  (fun (seen : list string) (name : string) =>
     if existsb (String.eqb name) seen then seen else seen ++ [name]).

Lemma unique_names_nodup (names : list string) :
  NoDup (first_appearances names).
Proof.
  unfold first_appearances.
  assert (G : forall seen, NoDup seen -> NoDup (fold_left seen_step names seen)).
  { induction names as [|n rest IH]; intros seen Hs; [exact Hs|].
    simpl. apply IH. destruct (existsb (String.eqb n) seen) eqn:E;
      [exact Hs|].
    apply NoDup_app; [exact Hs | constructor; [tauto | constructor] |].
    intros x Hx [Heq|[]]. subst x.
    assert (existsb (String.eqb n) seen = true); [|congruence].
    apply existsb_exists. exists n. split; [exact Hx | apply String.eqb_refl]. }
  apply G. constructor.
Qed.

Lemma add_actions_fold (actions : list string) (e : SubjectPolicy.t) :
  SubjectPolicy.actions (fold_left (fun e a => add_action a e) actions e)
  = fold_left seen_step actions (SubjectPolicy.actions e).
Proof.
  revert e. induction actions as [|a rest IH]; intros e; [reflexivity|].
  simpl. rewrite IH. f_equal.
  unfold add_action. now destruct (existsb _ _).
Qed.

Lemma visit_subject_in_order (policy : Annotation.t) (p p' : AppPolicy)
      (subject : string) :
  actions_in_order p ->
  visit_subject policy p subject = Normal p' ->
  actions_in_order p'.
Proof.
  intros Hp. unfold visit_subject. destruct (inherited subject).
  { destruct (Annotation.actions policy); [|discriminate].
    now intros [= <-]. }
  intros [= <-]. rewrite !fold_modify, modify_modify.
  set (acts := Annotation.actions policy).
  set (F := fun v : SubjectPolicy.t => _).
  set (p0 := match own subject p with
             | Some _ => p
             | None => create subject (SubjectPolicy.make [] []) p
             end).
  assert (H0 : actions_in_order p0).
  { subst p0. destruct (own subject p) eqn:E; [exact Hp|].
    intros k entry Hk. destruct (String.eqb_spec k subject) as [->|Hne].
    - rewrite own_create_same in Hk by exact E. now injection Hk as <-.
    - rewrite own_create_other in Hk by exact Hne. exact (Hp k entry Hk). }
  intros k entry Hk. destruct (String.eqb_spec k subject) as [->|Hne].
  - rewrite own_modify_same in Hk.
    destruct (own subject p0) as [e0|] eqn:E0; [|discriminate].
    injection Hk as <-. specialize (H0 subject e0 E0).
    set (mk := fun action =>
                 PolicyRule.make action subject (Annotation.conditions policy)).
    change (F e0)
      with (fold_left (fun e a => add_permission (mk a) e) acts
              (fold_left (fun e a => add_action a e) acts e0)).
    destruct (add_permissions mk acts
                (fold_left (fun e a => add_action a e) acts e0)) as [Ha Hperm].
    destruct (add_actions acts e0) as (_ & Hp0 & _).
    { rewrite H0. apply (unique_names_nodup _). }
    cbv zeta in Ha, Hperm, Hp0.
    rewrite Ha, Hperm, Hp0, add_actions_fold, H0.
    rewrite map_app, map_map. simpl. rewrite map_id.
    unfold first_appearances. now rewrite fold_left_app.
  - rewrite own_modify_other in Hk by exact Hne. exact (H0 k entry Hk).
Qed.

Lemma visit_routes_in_order (policies : list Annotation.t) :
  forall p p',
    actions_in_order p ->
    visit_routes policies p = Normal p' ->
    actions_in_order p'.
Proof.
  induction policies as [|policy rest IH]; intros p p' Hp; simpl.
  - now intros [= <-].
  - destruct (visit_subjects policy (Annotation.subjects policy) p)
      as [p1|] eqn:E; [|discriminate].
    apply IH. clear IH. revert p p1 Hp E.
    induction (Annotation.subjects policy) as [|subject more IHs];
      intros p p1 Hp; simpl.
    + now intros [= <-].
    + destruct (visit_subject policy p subject) as [q|] eqn:Eq;
        [|discriminate].
      apply IHs. now apply (visit_subject_in_order policy p q subject).
Qed.

End ActionsOrder.

(** X19.  In every schema [extractAppPolicy] produces, the [actions] of a
    subject are the actions of its permissions, each listed once, in the
    order in which the walk first meets them. *)
Theorem extractAppPolicy_actions_in_first_appearance_order :
  forall (contract : list (string * Node)) (schema : AppPolicy),
    extractAppPolicy contract = Normal schema ->
    forall subject entry,
      In (subject, entry) schema ->
      SubjectPolicy.actions entry
      = first_appearances
          (map PolicyRule.action (SubjectPolicy.permissions entry)).
Proof.
  intros contract schema H subject entry Hin.
  assert (Hnd : NoDup (map fst schema))
    by apply (extractAppPolicy_accounts contract schema H).
  unfold extractAppPolicy in H. rewrite traverse_routes in H.
  assert (Hempty : actions_in_order []).
  { intros k e Hk. discriminate Hk. }
  apply (visit_routes_in_order _ [] schema Hempty H subject entry).
  now apply in_own.
Qed.

Lemma extractAppPolicy_actions_in_first_appearance_order_witness :
  let contract :=
    [ ("posts",
       Group [ ("deletePost", Route node_B);
               ("viewPosts", Route node_A);
               ("removePost",
                Route (Annotation.make ["Post"] ["delete"; "read"] None)) ]) ] in
  exists entry,
    extractAppPolicy contract = Normal [("Post", entry)] /\
    SubjectPolicy.actions entry = ["delete"; "read"] /\
    SubjectPolicy.actions entry
    = first_appearances
        (map PolicyRule.action (SubjectPolicy.permissions entry)).
Proof.
  intros contract. eexists. split; [reflexivity|]. split; [reflexivity|].
  apply (extractAppPolicy_actions_in_first_appearance_order
           contract _ eq_refl "Post").
  left. reflexivity.
Defined.
